(** * kameroon-lib: the RSA-OAEP key helper of [src/index.js]

    A shallow embedding of the key helper (codec, key codec, key store and
    cipher engine) together with the part of the browser platform it calls
    (Base64, [parseInt], [localStorage], [crypto.subtle]), followed by the
    properties of the library established over that embedding. *)

From Stdlib Require Import ZArith Lia Ascii String List.
From stdpp Require Import base option list strings gmap.

Local Open Scope Z_scope.

(** ** Strings and buffers

    A JavaScript string is a sequence of UTF-16 code units and an
    [ArrayBuffer] a sequence of bytes; both are lists of integers here, the
    ranges being stated where they matter. *)

Definition is_byte (b : Z) : Prop := 0 <= b < 256.
Definition is_bytes (buf : list Z) : Prop := Forall is_byte buf.

(** A string literal of the source, as code units. *)
Definition lit (s : string) : list Z :=
  map (fun a => Z.of_N (N_of_ascii a)) (list_ascii_of_string s).

(** Integer conversions applied on a store into a typed array and by
    [String.fromCharCode]. *)
Definition ToUint8 (x : Z) : Z := x mod 256.
Definition ToUint16 (x : Z) : Z := x mod 65536.

(** [String.fromCharCode(c1, ..., cn)]. *)
Definition fromCharCode (codes : list Z) : list Z := map ToUint16 codes.

(** [str.charCodeAt(i)]; out of range the result is NaN, which a typed
    array stores as 0. *)
Definition charCodeAt (str : list Z) (i : nat) : Z :=
  match str !! i with
  | Some c => c
  | None => 0
  end.

(** *** Codec ([str2ab]; [ab2str] follows the platform it calls) *)

(** The [for] loop of [str2ab]: [n] iterations remain, [i] is the index. *)
Fixpoint str2ab_loop (str : list Z) (n i : nat) (bufView : list Z) : list Z :=
  match n with
  | O => bufView
  | S n' => str2ab_loop str n' (S i) (<[i := ToUint8 (charCodeAt str i)]> bufView)
  end.

Definition str2ab (str : list Z) : list Z :=
  let buf := replicate (length str) 0 in
  str2ab_loop str (length str) 0%nat buf.

(** ** Platform: Base64 ([window.btoa], [window.atob])

    After the HTML standard: [btoa] rejects a string with a code unit above
    U+00FF and otherwise encodes its code units as bytes; [atob] is the
    forgiving-base64 decoder. *)

(** The 6-bit groups of a byte sequence, most significant first; a final
    group of one or two bytes gives two or three sextets. *)
Fixpoint sextets (bs : list Z) : list Z :=
  match bs with
  | [] => []
  | [a] => [a / 4; (a mod 4) * 16]
  | [a; b] => [a / 4; (a mod 4) * 16 + b / 16; (b mod 16) * 4]
  | a :: b :: c :: rest =>
      a / 4 :: (a mod 4) * 16 + b / 16 :: (b mod 16) * 4 + c / 64 :: c mod 64
        :: sextets rest
  end.

Definition is_sextet (v : Z) : Prop := 0 <= v < 64.

(** The Base64 alphabet: A-Z, a-z, 0-9, +, /. *)
Definition b64_char (n : Z) : Z :=
  if n <? 26 then 65 + n
  else if n <? 52 then 71 + n
  else if n <? 62 then n - 4
  else if n =? 62 then 43
  else 47.

Definition b64_value (c : Z) : option Z :=
  if (65 <=? c) && (c <=? 90) then Some (c - 65)
  else if (97 <=? c) && (c <=? 122) then Some (c - 71)
  else if (48 <=? c) && (c <=? 57) then Some (c + 4)
  else if c =? 43 then Some 62
  else if c =? 47 then Some 63
  else None.

(** Number of '=' that complete the last quantum. *)
Definition b64_padding (bs : list Z) : nat := ((3 - length bs mod 3) mod 3)%nat.

Definition b64_encode (bs : list Z) : list Z :=
  map b64_char (sextets bs) ++ replicate (b64_padding bs) 61.

(** Bytes of a sequence of sextets: every four sextets give three bytes; a
    remainder of two gives one byte and of three gives two, the spare low
    bits being discarded. *)
Fixpoint b64_decode_groups (vs : list Z) : list Z :=
  match vs with
  | a :: b :: c :: d :: rest =>
      a * 4 + b / 16 :: (b mod 16) * 16 + c / 4 :: (c mod 4) * 64 + d
        :: b64_decode_groups rest
  | [a; b; c] => [a * 4 + b / 16; (b mod 16) * 16 + c / 4]
  | [a; b] => [a * 4 + b / 16]
  | _ => []
  end.

(** TAB, LF, FF, CR and SPACE. *)
Definition is_ascii_whitespace (c : Z) : bool :=
  (c =? 9) || (c =? 10) || (c =? 12) || (c =? 13) || (c =? 32).

(** Removal of one or two trailing '='. *)
Definition strip_trailing_eq (data : list Z) : list Z :=
  match rev data with
  | x :: y :: r =>
      if x =? 61 then (if y =? 61 then rev r else rev (y :: r)) else data
  | [x] => if x =? 61 then [] else data
  | [] => data
  end.

Definition forgiving_base64_decode (data : list Z) : option (list Z) :=
  let data := List.filter (fun c => negb (is_ascii_whitespace c)) data in
  let data := if (length data mod 4 =? 0)%nat then strip_trailing_eq data else data in
  if (length data mod 4 =? 1)%nat then None
  else vs ← mapM b64_value data; Some (b64_decode_groups vs).


(** ** Platform: Numbers, [parseInt], [Number.prototype.toString]

    The library only handles integral Numbers: a clock reading, the expiry
    computed from it and the result of [parseInt]. [Fin z] is the Number of
    the integer [z]; values produced by the operations below are doubles. *)

Inductive jsnum :=
  | NaN
  | Fin (z : Z)
  | PInf
  | NInf.

(** The double nearest to an integer (ties to even), or an infinity. *)
Definition round_double (z : Z) : jsnum :=
  let a := Z.abs z in
  if a <? 2 ^ 53 then Fin z
  else
    let e := Z.log2 a - 52 in
    let q := a / 2 ^ e in
    let r := a mod 2 ^ e in
    let half := 2 ^ (e - 1) in
    let q' := if r <? half then q
              else if half <? r then q + 1
              else if Z.even q then q else q + 1 in
    let v := q' * 2 ^ e in
    if 2 ^ 1024 <=? v then (if z <? 0 then NInf else PInf)
    else Fin (Z.sgn z * v).

(** The relational operator [x < y] on Numbers (false when either is NaN). *)
Definition js_lt (x y : jsnum) : bool :=
  match x, y with
  | Fin a, Fin b => a <? b
  | Fin _, PInf => true
  | NInf, Fin _ => true
  | NInf, PInf => true
  | _, _ => false
  end.

(** [x + y] on Numbers. *)
Definition js_add (x y : jsnum) : jsnum :=
  match x, y with
  | Fin a, Fin b => round_double (a + b)
  | NaN, _ | _, NaN => NaN
  | PInf, NInf | NInf, PInf => NaN
  | PInf, _ | _, PInf => PInf
  | NInf, _ | _, NInf => NInf
  end.

(** White space and line terminators skipped by [parseInt]. *)
Definition is_StrWhiteSpaceChar (c : Z) : bool :=
  ((9 <=? c) && (c <=? 13)) || (c =? 32) || (c =? 160) || (c =? 5760)
  || ((8192 <=? c) && (c <=? 8202)) || (c =? 8232) || (c =? 8233)
  || (c =? 8239) || (c =? 8287) || (c =? 12288) || (c =? 65279).

Fixpoint trim_start (s : list Z) : list Z :=
  match s with
  | c :: s' => if is_StrWhiteSpaceChar c then trim_start s' else s
  | [] => []
  end.

(** Value of a digit of radix [R]: 0-9, then a-z or A-Z. *)
Definition radix_digit (R c : Z) : option Z :=
  let d := if (48 <=? c) && (c <=? 57) then c - 48
           else if (97 <=? c) && (c <=? 122) then c - 87
           else if (65 <=? c) && (c <=? 90) then c - 55
           else R in
  if d <? R then Some d else None.

(** The longest prefix of radix-[R] digits, as digit values. *)
Fixpoint take_digits (R : Z) (s : list Z) : list Z :=
  match s with
  | c :: s' =>
      match radix_digit R c with
      | Some d => d :: take_digits R s'
      | None => []
      end
  | [] => []
  end.

Definition digits_value (R : Z) (ds : list Z) : Z :=
  fold_left (fun acc d => acc * R + d) ds 0.

(** A leading '-' or '+' is removed and gives the sign. *)
Definition strip_sign (S0 : list Z) : Z * list Z :=
  match S0 with
  | c :: S' => if c =? 45 then (-1, S') else if c =? 43 then (1, S') else (1, S0)
  | [] => (1, S0)
  end.

(** A leading "0x" or "0X" is removed and makes the radix 16. *)
Definition strip_prefix (S1 : list Z) : Z * list Z :=
  match S1 with
  | c :: x :: S' =>
      if (c =? 48) && ((x =? 120) || (x =? 88)) then (16, S') else (10, S1)
  | _ => (10, S1)
  end.

(** [parseInt(string)] with no radix argument: radix 10, or 16 after a
    "0x" or "0X" prefix. (An implementation may approximate a decimal
    numeral after its 20th significant digit; the exact value is taken.) *)
Definition parseInt (inputString : list Z) : jsnum :=
  let S0 := trim_start inputString in
  let '(sign, S1) := strip_sign S0 in
  let '(R, S2) := strip_prefix S1 in
  match take_digits R S2 with
  | [] => NaN
  | ds => round_double (sign * digits_value R ds)
  end.

(** [ToString] of the result of [getItem]: the string itself, or "null". *)
Definition ToString_nullable (v : option (list Z)) : list Z :=
  match v with
  | Some s => s
  | None => lit "null"
  end.

(** Decimal digits of a non-negative integer, prepended to [acc]; [fuel]
    bounds the number of digits. *)
Fixpoint decimal_digits (fuel : nat) (n : Z) (acc : list Z) : list Z :=
  match fuel with
  | O => acc
  | S fuel' =>
      let acc' := 48 + n mod 10 :: acc in
      if n <? 10 then acc' else decimal_digits fuel' (n / 10) acc'
  end.

Definition decimal (z : Z) : list Z :=
  let a := Z.abs z in
  let ds := decimal_digits (S (Z.to_nat (Z.log2 a))) a [] in
  if z <? 0 then 45 :: ds else ds.

(** [x.toString()] of an integral Number. A magnitude of 10^21 or more
    prints in exponent notation, which no clock value reaches and which is
    not rendered here. *)
Definition Number_toString (x : jsnum) : list Z :=
  match x with
  | NaN => lit "NaN"
  | PInf => lit "Infinity"
  | NInf => lit "-Infinity"
  | Fin z => decimal z
  end.

Definition is_digit (c : Z) : Prop := 48 <= c <= 57.

(** Value of a run of decimal digit characters. *)
Definition numeral_value (ds : list Z) : Z :=
  fold_left (fun acc c => acc * 10 + (c - 48)) ds 0.

(** UTF-8 bytes of a string ([new TextEncoder().encode]): a surrogate
    pair is one code point of four bytes, a lone surrogate is U+FFFD. *)
Fixpoint utf8_encode (s : list Z) : list Z :=
  match s with
  | [] => []
  | c :: s' =>
      if c <? 128 then c :: utf8_encode s'
      else if c <? 2048 then 192 + c / 64 :: 128 + c mod 64 :: utf8_encode s'
      else if (55296 <=? c) && (c <=? 56319) then
        match s' with
        | d :: s'' =>
            if (56320 <=? d) && (d <=? 57343) then
              let cp := 65536 + (c - 55296) * 1024 + (d - 56320) in
              240 + cp / 262144 :: 128 + (cp / 4096) mod 64
                :: 128 + (cp / 64) mod 64 :: 128 + cp mod 64 :: utf8_encode s''
            else 239 :: 191 :: 189 :: utf8_encode s'
        | [] => [239; 191; 189]
        end
      else if (56320 <=? c) && (c <=? 57343) then 239 :: 191 :: 189 :: utf8_encode s'
      else 224 + c / 4096 :: 128 + (c / 64) mod 64 :: 128 + c mod 64 :: utf8_encode s'
  end.

(** ** Effects: exceptions, the store, the console, the clock

    An operation of the library runs against a world and either returns
    normally or throws; the awaited calls of an [async] function are
    sequenced in program order. *)

(** What is thrown: an [Error] the library makes with its message, a
    TypeError of the engine, the RangeError the engine throws on a call
    with more arguments than it takes ([CallRangeError]), or a DOMException
    of the platform by name. *)
Inductive exn :=
  | Error (message : string)
  | TypeError
  | CallRangeError
  | DOMException (name : string).

Inductive completion (A : Type) :=
  | Normal (a : A)
  | Throw (e : exn).
Arguments Normal {A} a.
Arguments Throw {A} e.

Inductive KeyFormat := spki | pkcs8.
Inductive KeyType := public | private.
Inductive KeyUsage := encrypt | decrypt | wrapKey | unwrapKey.

#[global] Instance KeyUsage_eq_dec : EqDecision KeyUsage.
Proof. solve_decision. Defined.

(** The algorithm dictionary passed to [importKey]. *)
Record RsaHashedImportParams := { name : string; hash : string }.

(** The algorithm dictionary passed to [generateKey]. *)
Record RsaHashedKeyGenParams := {
  gen_name : string;
  modulusLength : Z;
  publicExponent : list Z;
  gen_hash : string
}.

(** Digest length in bytes of the hashes RSA-OAEP accepts. *)
Definition hash_length (h : string) : option Z :=
  if String.eqb h "SHA-1" then Some 20
  else if String.eqb h "SHA-256" then Some 32
  else if String.eqb h "SHA-384" then Some 48
  else if String.eqb h "SHA-512" then Some 64
  else None.

(** What the browser decides and the library cannot see into: the DER
    codecs of RSA keys, the size of a modulus, key generation and the
    RSAES-OAEP primitives (given their random seed), the UTF-8 decoder of
    [TextDecoder] (which replaces malformed input and does not throw), how
    much the store accepts, and how many arguments the engine takes in one
    call ([Function.prototype.apply] throws a RangeError beyond that). *)
Class Platform := {
  key_material : Type;
  parse_spki : list Z -> option key_material;
  parse_pkcs8 : list Z -> option key_material;
  encode_spki : key_material -> list Z;
  encode_pkcs8 : key_material -> list Z;
  modulus_bits : key_material -> Z;
  generate_rsa : Z -> list Z -> nat -> option (key_material * key_material);
  rsaes_oaep : key_material -> nat -> list Z -> list Z;
  rsaes_oaep_decrypt : key_material -> list Z -> option (list Z);
  utf8_decode : list Z -> list Z;
  storage_quota : gmap string (list Z) -> bool;
  max_arguments : Z
}.

Record CryptoKey `{Platform} := {
  type : KeyType;
  extractable : bool;
  algorithm : RsaHashedImportParams;
  usages : list KeyUsage;
  material : key_material
}.

(** The argument of [saveKeysToLocalStorage]: an object whose two
    properties may or may not hold a key. *)
Record CryptoKeyPair `{Platform} := {
  privateKey : option CryptoKey;
  publicKey : option CryptoKey
}.

(** The object [fetchKeysFromLocalStorage] resolves to. *)
Record FetchedKeys `{Platform} := {
  fetched_privateKey : CryptoKey;
  fetched_publicKey : list Z
}.

(** A call made to [crypto.subtle], as the provider receives it. *)
Inductive SubtleCall `{Platform} :=
  | CallExportKey (format : KeyFormat) (key : option CryptoKey)
  | CallImportKey (format : KeyFormat) (keyData : list Z)
      (alg : RsaHashedImportParams) (ext : bool) (keyUsages : list KeyUsage)
  | CallEncrypt (algName : string) (key : CryptoKey) (data : list Z)
  | CallDecrypt (algName : string) (key : option CryptoKey) (data : list Z)
  | CallGenerateKey (alg : RsaHashedKeyGenParams) (ext : bool)
      (keyUsages : list KeyUsage).

Record World `{Platform} := {
  localStorage : gmap string (list Z);
  console : list exn;
  clock : Z;
  subtle_calls : list SubtleCall;
  entropy : nat
}.

Definition M `{Platform} (A : Type) : Type := World -> completion A * World.

Definition ret `{Platform} {A} (a : A) : M A := fun w => (Normal a, w).
Definition throw `{Platform} {A} (e : exn) : M A := fun w => (Throw e, w).
Definition bind `{Platform} {A B} (m : M A) (k : A -> M B) : M B :=
  fun w =>
    match m w with
    | (Normal a, w') => k a w'
    | (Throw e, w') => (Throw e, w')
    end.
(** [try { body } catch (e) { handler }]: the effects of [body] up to the
    throw stay. *)
Definition try_catch `{Platform} {A} (body : M A) (handler : exn -> M A) : M A :=
  fun w =>
    match body w with
    | (Normal a, w') => (Normal a, w')
    | (Throw e, w') => handler e w'
    end.

Notation "'let*' x := m 'in' k" := (bind m (fun x => k))
  (at level 10, x name, m at level 100, k at level 200).

Definition with_storage `{Platform} (s : gmap string (list Z)) (w : World) : World :=
  {| localStorage := s; console := console w; clock := clock w;
     subtle_calls := subtle_calls w; entropy := entropy w |}.
Definition with_console `{Platform} (c : list exn) (w : World) : World :=
  {| localStorage := localStorage w; console := c; clock := clock w;
     subtle_calls := subtle_calls w; entropy := entropy w |}.
Definition with_call `{Platform} (c : SubtleCall) (w : World) : World :=
  {| localStorage := localStorage w; console := console w; clock := clock w;
     subtle_calls := subtle_calls w ++ [c]; entropy := entropy w |}.
Definition with_entropy `{Platform} (n : nat) (w : World) : World :=
  {| localStorage := localStorage w; console := console w; clock := clock w;
     subtle_calls := subtle_calls w; entropy := n |}.

(** *** The platform's operations *)

(** [Date.now()]: a time value, an integer of magnitude at most 8.64e15. *)
Definition time_value (t : Z) : Prop := Z.abs t <= 8640000000000000.

(** A reading of the clock as it stands. No operation of the library
    reads it twice; between two operations it moves on ([elapse]). *)
Definition Date_now `{Platform} : M Z := fun w => (Normal (clock w), w).

Definition with_clock `{Platform} (t : Z) (w : World) : World :=
  {| localStorage := localStorage w; console := console w; clock := t;
     subtle_calls := subtle_calls w; entropy := entropy w |}.

(** Time passing between two operations of a run: [dt] milliseconds. *)
Definition elapse `{Platform} (dt : Z) : M unit :=
  fun w => (Normal tt, with_clock (clock w + dt) w).

Definition console_error `{Platform} (e : exn) : M unit :=
  fun w => (Normal tt, with_console (console w ++ [e]) w).

Definition localStorage_getItem `{Platform} (key : string) : M (option (list Z)) :=
  fun w => (Normal (localStorage w !! key), w).

Definition localStorage_setItem `{Platform} (key : string) (value : list Z) : M unit :=
  fun w =>
    let s := <[key := value]> (localStorage w) in
    if storage_quota s then (Normal tt, with_storage s w)
    else (Throw (DOMException "QuotaExceededError"), w).

Definition is_latin1 (s : list Z) : bool := forallb (fun c => c <=? 255) s.

Definition window_btoa `{Platform} (s : list Z) : M (list Z) :=
  if is_latin1 s then ret (b64_encode s)
  else throw (DOMException "InvalidCharacterError").

Definition window_atob `{Platform} (s : list Z) : M (list Z) :=
  match forgiving_base64_decode s with
  | Some bs => ret bs
  | None => throw (DOMException "InvalidCharacterError")
  end.

(** *** Codec ([ab2str])

    [String.fromCharCode.apply(null, new Uint8Array(buf))]: the bytes of
    the buffer are spread as the arguments of one call, one argument a
    byte, so a buffer longer than the engine takes arguments throws a
    RangeError. *)
Definition ab2str `{Platform} (buf : list Z) : M (list Z) :=
  if Z.of_nat (length buf) <=? max_arguments then ret (fromCharCode buf)
  else throw CallRangeError.

Definition called `{Platform} (c : SubtleCall) : M unit :=
  fun w => (Normal tt, with_call c w).

(** [crypto.subtle.exportKey(format, key)]. *)
Definition subtle_exportKey `{Platform} (format : KeyFormat) (key : option CryptoKey)
  : M (list Z) :=
  let* _ := called (CallExportKey format key) in
  match key with
  | None => throw TypeError
  | Some k =>
      if negb (extractable k) then throw (DOMException "InvalidAccessError")
      else
        match format, type k with
        | spki, public => ret (encode_spki (material k))
        | pkcs8, private => ret (encode_pkcs8 (material k))
        | _, _ => throw (DOMException "InvalidAccessError")
        end
  end.

(** [crypto.subtle.importKey(format, keyData, algorithm, extractable,
    keyUsages)] for RSA-OAEP. The usage lists the library passes have one
    entry, so they are their own normal form. *)
Definition subtle_importKey `{Platform} (format : KeyFormat) (keyData : list Z)
    (alg : RsaHashedImportParams) (ext : bool) (keyUsages : list KeyUsage)
  : M CryptoKey :=
  let* _ := called (CallImportKey format keyData alg ext keyUsages) in
  if negb (String.eqb (name alg) "RSA-OAEP") then throw (DOMException "NotSupportedError")
  else if negb (bool_decide (is_Some (hash_length (hash alg)))) then
    throw (DOMException "NotSupportedError")
  else
    match format with
    | spki =>
        if existsb (fun u => negb (bool_decide (u = encrypt ∨ u = wrapKey))) keyUsages
        then throw (DOMException "SyntaxError")
        else
          match parse_spki keyData with
          | None => throw (DOMException "DataError")
          | Some m =>
              ret {| type := public; extractable := ext; algorithm := alg;
                     usages := keyUsages; material := m |}
          end
    | pkcs8 =>
        if existsb (fun u => negb (bool_decide (u = decrypt ∨ u = unwrapKey))) keyUsages
        then throw (DOMException "SyntaxError")
        else
          match parse_pkcs8 keyData with
          | None => throw (DOMException "DataError")
          | Some m =>
              match keyUsages with
              | [] => throw (DOMException "SyntaxError")
              | _ =>
                  ret {| type := private; extractable := ext; algorithm := alg;
                         usages := keyUsages; material := m |}
              end
          end
    end.

(** Largest message RSAES-OAEP takes: k - 2 hLen - 2 bytes for a modulus
    of k bytes. *)
Definition oaep_max_length `{Platform} (key : CryptoKey) : Z :=
  (modulus_bits (material key) + 7) / 8
  - 2 * default 0 (hash_length (hash (algorithm key))) - 2.

(** [crypto.subtle.encrypt({name}, key, data)] for RSA-OAEP. *)
Definition subtle_encrypt `{Platform} (algName : string) (key : CryptoKey)
    (data : list Z) : M (list Z) :=
  let* _ := called (CallEncrypt algName key data) in
  if negb (String.eqb algName (name (algorithm key))) then
    throw (DOMException "InvalidAccessError")
  else if negb (bool_decide (encrypt ∈ usages key)) then
    throw (DOMException "InvalidAccessError")
  else
    match type key with
    | private => throw (DOMException "InvalidAccessError")
    | public =>
        if oaep_max_length key <? Z.of_nat (length data) then
          throw (DOMException "OperationError")
        else
          fun w => (Normal (rsaes_oaep (material key) (entropy w) data),
                    with_entropy (S (entropy w)) w)
    end.

(** [crypto.subtle.decrypt({name}, key, data)] for RSA-OAEP. *)
Definition subtle_decrypt `{Platform} (algName : string) (key : option CryptoKey)
    (data : list Z) : M (list Z) :=
  let* _ := called (CallDecrypt algName key data) in
  match key with
  | None => throw TypeError
  | Some k =>
      if negb (String.eqb algName (name (algorithm k))) then
        throw (DOMException "InvalidAccessError")
      else if negb (bool_decide (decrypt ∈ usages k)) then
        throw (DOMException "InvalidAccessError")
      else
        match type k with
        | public => throw (DOMException "InvalidAccessError")
        | private =>
            match rsaes_oaep_decrypt (material k) data with
            | Some m => ret m
            | None => throw (DOMException "OperationError")
            end
        end
  end.

(** [crypto.subtle.generateKey(algorithm, extractable, keyUsages)] for
    RSA-OAEP: the public key takes the encrypting usages asked for and the
    private key the decrypting ones. *)
Definition subtle_generateKey `{Platform} (alg : RsaHashedKeyGenParams) (ext : bool)
    (keyUsages : list KeyUsage) : M CryptoKeyPair :=
  let* _ := called (CallGenerateKey alg ext keyUsages) in
  if negb (String.eqb (gen_name alg) "RSA-OAEP") then throw (DOMException "NotSupportedError")
  else if negb (bool_decide (is_Some (hash_length (gen_hash alg)))) then
    throw (DOMException "NotSupportedError")
  else
    fun w =>
      match generate_rsa (modulusLength alg) (publicExponent alg) (entropy w) with
      | None => (Throw (DOMException "OperationError"), with_entropy (S (entropy w)) w)
      | Some (pub, priv) =>
          let params := {| name := gen_name alg; hash := gen_hash alg |} in
          let pubUsages :=
            List.filter (fun u => bool_decide (u = encrypt ∨ u = wrapKey)) keyUsages in
          let privUsages :=
            List.filter (fun u => bool_decide (u = decrypt ∨ u = unwrapKey)) keyUsages in
          match privUsages with
          | [] => (Throw (DOMException "SyntaxError"), with_entropy (S (entropy w)) w)
          | _ =>
              (Normal
                 {| privateKey :=
                      Some {| type := private; extractable := ext; algorithm := params;
                              usages := privUsages; material := priv |};
                    publicKey :=
                      Some {| type := public; extractable := true; algorithm := params;
                              usages := pubUsages; material := pub |} |},
               with_entropy (S (entropy w)) w)
          end
      end.

(** ** The library ([src/index.js]) *)

Definition RSA_OAEP_SHA256 : RsaHashedImportParams :=
  {| name := "RSA-OAEP"; hash := "SHA-256" |}.

Definition createKeys `{Platform} : M CryptoKeyPair :=
  subtle_generateKey
    {| gen_name := "RSA-OAEP"; modulusLength := 2048; publicExponent := [1; 0; 1];
       gen_hash := "SHA-256" |}
    true
    [encrypt; decrypt].

Definition exportPublicKeyToBase64 `{Platform} (publicKey : option CryptoKey)
  : M (list Z) :=
  let* exported := subtle_exportKey spki publicKey in
  let* exportedAsString := ab2str exported in
  window_btoa exportedAsString.

Definition exportPrivateKeyToBase64 `{Platform} (privateKey : option CryptoKey)
  : M (list Z) :=
  let* exportedPrivateKey := subtle_exportKey pkcs8 privateKey in
  let* exportedPrivateKeyAsString := ab2str exportedPrivateKey in
  window_btoa exportedPrivateKeyAsString.

Definition importPublicKey `{Platform} (pem : list Z) : M CryptoKey :=
  let* binaryDerString := window_atob pem in
  let binaryDer := str2ab binaryDerString in
  subtle_importKey spki binaryDer RSA_OAEP_SHA256 true [encrypt].

Definition importPrivateKey `{Platform} (pem : list Z) : M CryptoKey :=
  let* binaryDerString := window_atob pem in
  let binaryDer := str2ab binaryDerString in
  subtle_importKey pkcs8 binaryDer RSA_OAEP_SHA256 true [decrypt].

(** [const {privateKey, publicKey} = keys]: a TypeError when [keys] is
    undefined or null. *)
Definition destructure_keys `{Platform} (keys : option CryptoKeyPair)
  : M (option CryptoKey * option CryptoKey) :=
  match keys with
  | None => throw TypeError
  | Some kp => ret (privateKey kp, publicKey kp)
  end.

(** The [try] block of [saveKeysToLocalStorage]. *)
Definition saveKeys_try `{Platform} (keys : option CryptoKeyPair) : M unit :=
  let* ks := destructure_keys keys in
  let* exportedPrivateKey := exportPrivateKeyToBase64 (fst ks) in
  let* exportedPublicKey := exportPublicKeyToBase64 (snd ks) in
  let ttlSeconds := 3600 in
  let* now := Date_now in
  let expirationTimestamp := js_add (Fin now) (Fin (ttlSeconds * 1000)) in
  let* _ := localStorage_setItem "privateKeyBase64" exportedPrivateKey in
  let* _ := localStorage_setItem "publicKeyBase64" exportedPublicKey in
  localStorage_setItem "ttl" (Number_toString expirationTimestamp).

Definition saveKeysToLocalStorage `{Platform} (keys : option CryptoKeyPair) : M unit :=
  try_catch (saveKeys_try keys) (fun e => console_error e).

Definition fetchKeysFromLocalStorage `{Platform} : M FetchedKeys :=
  let* privateKeyBase64 := localStorage_getItem "privateKeyBase64" in
  match privateKeyBase64 with
  | None => throw (Error "private key not found")
  | Some privateKeyBase64 =>
      let* publicKeyBase64 := localStorage_getItem "publicKeyBase64" in
      match publicKeyBase64 with
      | None => throw (Error "public key not found")
      | Some publicKeyBase64 =>
          let* ttl := localStorage_getItem "ttl" in
          let keyExpiration := parseInt (ToString_nullable ttl) in
          let* now := Date_now in
          if js_lt (Fin now) keyExpiration then
            let* k := importPrivateKey privateKeyBase64 in
            ret {| fetched_privateKey := k; fetched_publicKey := publicKeyBase64 |}
          else throw (Error "keys expired")
      end
  end.

Definition encryptMessage `{Platform} (publicKeyBase64 message : list Z) : M (list Z) :=
  let* publicKey := importPublicKey publicKeyBase64 in
  subtle_encrypt "RSA-OAEP" publicKey (utf8_encode message).

Definition decryptMessage `{Platform} (privateKey : option CryptoKey)
    (encryptedMessage : list Z) : M (list Z) :=
  let* decryptedMessage := subtle_decrypt "RSA-OAEP" privateKey encryptedMessage in
  ret (utf8_decode decryptedMessage).

Definition encodeEncryptedMessageAsBase64 `{Platform} (encryptedMessage : list Z)
  : M (list Z) :=
  let* s := ab2str encryptedMessage in
  window_btoa s.

Definition decodeBase64EncryptedMessage `{Platform} (base64encodedMessage : list Z)
  : M (list Z) :=
  let* s := window_atob base64encodedMessage in
  ret (str2ab s).

(** The handles the two imports of the library build from key material. *)
Definition imported_public `{Platform} (m : key_material) : CryptoKey :=
  {| type := public; extractable := true; algorithm := RSA_OAEP_SHA256;
     usages := [encrypt]; material := m |}.

Definition imported_private `{Platform} (m : key_material) : CryptoKey :=
  {| type := private; extractable := true; algorithm := RSA_OAEP_SHA256;
     usages := [decrypt]; material := m |}.

(** *** A small platform to run the library on

    Keys are told apart by their modulus size only: any DER sequence
    (leading byte 0x30) parses as a 2048-bit key, and a ciphertext is as
    long as the modulus. The store accepts everything. *)
Definition demo_platform : Platform :=
  {| key_material := Z;
     parse_spki := fun der => match der with c :: _ => if c =? 48 then Some 2048 else None | [] => None end;
     parse_pkcs8 := fun der => match der with c :: _ => if c =? 48 then Some 2048 else None | [] => None end;
     encode_spki := fun m => [48; 1];
     encode_pkcs8 := fun m => [48; 2];
     modulus_bits := fun m => m;
     generate_rsa := fun bits e seed => Some (bits, bits);
     rsaes_oaep := fun m seed data => replicate (Z.to_nat ((m + 7) / 8)) (Z.of_nat seed mod 256);
     rsaes_oaep_decrypt := fun m data => None;
     utf8_decode := fun bs => bs;
     storage_quota := fun _ => true;
     max_arguments := 65536 |}.

Definition empty_world (P : Platform) (now : Z) : @World P :=
  {| localStorage := ∅; console := []; clock := now; subtle_calls := []; entropy := 0 |}.

Definition expiry_demo_world (sk : list Z) (now : Z) : @World demo_platform :=
  {| localStorage := <["ttl" := lit "2000"]> (<["publicKeyBase64" := lit "cGs="]>
                       (<["privateKeyBase64" := sk]> ∅));
     console := []; clock := now; subtle_calls := []; entropy := 0 |}.

Definition no_ttl_demo_world : @World demo_platform :=
  {| localStorage := <["publicKeyBase64" := lit "cGs="]>
                       (<["privateKeyBase64" := lit "MAI="]> ∅);
     console := []; clock := 1000; subtle_calls := []; entropy := 0 |}.

Definition demo_keys : @CryptoKeyPair demo_platform :=
  {| privateKey := Some (@imported_private demo_platform 2048);
     publicKey := Some (@imported_public demo_platform 2048) |}.

(** A pair whose private key may not be exported. *)
Definition sealed_key : @CryptoKey demo_platform :=
  @Build_CryptoKey demo_platform private false RSA_OAEP_SHA256 [decrypt] 2048.

Definition sealed_keys : @CryptoKeyPair demo_platform :=
  {| privateKey := Some sealed_key;
     publicKey := Some (@imported_public demo_platform 2048) |}.

Definition demo_imported_world : @World demo_platform :=
  with_call (CallImportKey spki [48; 1] RSA_OAEP_SHA256 true [encrypt])
    (empty_world demo_platform 0).

(** The parameters [createKeys] asks for. *)
Definition RSA_2048_SHA256 : RsaHashedKeyGenParams :=
  {| gen_name := "RSA-OAEP"; modulusLength := 2048; publicExponent := [1; 0; 1];
     gen_hash := "SHA-256" |}.

(** The same platform with a store that holds one entry only. *)
Definition small_store_platform : Platform :=
  {| key_material := Z;
     parse_spki := @parse_spki demo_platform;
     parse_pkcs8 := @parse_pkcs8 demo_platform;
     encode_spki := @encode_spki demo_platform;
     encode_pkcs8 := @encode_pkcs8 demo_platform;
     modulus_bits := @modulus_bits demo_platform;
     generate_rsa := @generate_rsa demo_platform;
     rsaes_oaep := @rsaes_oaep demo_platform;
     rsaes_oaep_decrypt := @rsaes_oaep_decrypt demo_platform;
     utf8_decode := @utf8_decode demo_platform;
     storage_quota := fun s => bool_decide (size s <= 1)%nat;
     max_arguments := @max_arguments demo_platform |}.

(** The same platform with a cipher that can be undone: the ciphertext is
    the message itself. *)
Definition loopback_platform : Platform :=
  {| key_material := Z;
     parse_spki := @parse_spki demo_platform;
     parse_pkcs8 := @parse_pkcs8 demo_platform;
     encode_spki := @encode_spki demo_platform;
     encode_pkcs8 := @encode_pkcs8 demo_platform;
     modulus_bits := @modulus_bits demo_platform;
     generate_rsa := @generate_rsa demo_platform;
     rsaes_oaep := fun m seed data => data;
     rsaes_oaep_decrypt := fun m data => Some data;
     utf8_decode := @utf8_decode demo_platform;
     storage_quota := fun _ => true;
     max_arguments := @max_arguments demo_platform |}.

(** The store a save of [demo_keys] at 1730000000000 leaves, read at a
    later clock. *)
Definition demo_saved_world (now : Z) : @World demo_platform :=
  {| localStorage :=
       localStorage (snd (@saveKeys_try demo_platform (Some demo_keys)
                            (empty_world demo_platform 1730000000000)));
     console := []; clock := now; subtle_calls := []; entropy := 0 |}.

(** The loop-back platform with a store that holds three entries only. *)
Definition three_entry_platform : Platform :=
  {| key_material := Z;
     parse_spki := @parse_spki demo_platform;
     parse_pkcs8 := @parse_pkcs8 demo_platform;
     encode_spki := @encode_spki demo_platform;
     encode_pkcs8 := @encode_pkcs8 demo_platform;
     modulus_bits := @modulus_bits demo_platform;
     generate_rsa := @generate_rsa demo_platform;
     rsaes_oaep := fun m seed data => data;
     rsaes_oaep_decrypt := fun m data => Some data;
     utf8_decode := @utf8_decode demo_platform;
     storage_quota := fun s => bool_decide (size s <= 3)%nat;
     max_arguments := @max_arguments demo_platform |}.

Definition small_store_keys : @CryptoKeyPair small_store_platform :=
  {| privateKey := Some (@imported_private small_store_platform 2048);
     publicKey := Some (@imported_public small_store_platform 2048) |}.

(** ** The barcode decoders ([KoderZxing.decode], [KoderZbar.decode])

    Each wrapper drives a compiled decoder through its module object: the
    linear memory seen as [HEAPU8], and exported functions that run against
    that memory and the decoder's own state (its allocator included). What
    those functions compute is the decoder's; the wrappers add the copying
    of the image, the calls and the shaping of the result. *)

(** What a [decode] can throw: a TypeError on a wrapper that was not
    initialised, the RangeError of a copy that does not fit the memory, or
    whatever comes out of the compiled code. *)
Inductive wasm_exn :=
  | NotInitialised
  | RangeError
  | NativeException (what : Z).

Inductive outcome (A : Type) :=
  | Returns (a : A)
  | Raises (e : wasm_exn).
Arguments Returns {A} a.
Arguments Raises {A} e.

(** The module object: its memory, the decoder's state and the calls made
    into the decoder so far. *)
Record WasmModule (native call : Type) := {
  HEAPU8 : list Z;
  native_state : native;
  calls : list call
}.
Arguments HEAPU8 {native call} _.
Arguments native_state {native call} _.
Arguments calls {native call} _.

Definition W (S A : Type) : Type := S -> outcome A * S.

Definition oret {S A} (a : A) : W S A := fun m => (Returns a, m).
Definition obind {S A B} (c : W S A) (k : A -> W S B) : W S B :=
  fun m =>
    match c m with
    | (Returns a, m') => k a m'
    | (Raises e, m') => (Raises e, m')
    end.

Notation "'let+' x := c 'in' k" := (obind c (fun x => k))
  (at level 10, x name, c at level 100, k at level 200).

(** The memory after [HEAPU8.set(source, offset)]. *)
Definition heap_write (heap source : list Z) (offset : nat) : list Z :=
  take offset heap ++ map ToUint8 source ++ drop (offset + length source) heap.

(** [this.mod.HEAPU8.set(source, offset)]: a RangeError when the source
    does not fit the memory from [offset] on. *)
Definition HEAPU8_set {native call} (source : list Z) (offset : Z)
  : W (WasmModule native call) unit :=
  fun m =>
    if (offset <? 0) || (Z.of_nat (length (HEAPU8 m)) <? offset + Z.of_nat (length source))
    then (Raises RangeError, m)
    else (Returns tt,
          {| HEAPU8 := heap_write (HEAPU8 m) source (Z.to_nat offset);
             native_state := native_state m; calls := calls m |}).

(** A call into the compiled code: it is put on record, then run on the
    memory and the decoder's state, which it may both change. *)
Definition native_call {native call A} (c : call)
    (f : list Z -> native -> outcome A * list Z * native)
  : W (WasmModule native call) A :=
  fun m =>
    let '(r, heap, st) := f (HEAPU8 m) (native_state m) in
    (r, {| HEAPU8 := heap; native_state := st; calls := calls m ++ [c] |}).

(** The object a decode returns; its [type] property is [barcode_type]
    here. *)
Record Barcode := { code : list Z; barcode_type : list Z }.

(** [return results.length > 0 ? results[0] : null]. *)
Definition first_or_null (results : list Barcode) : option Barcode :=
  match results with
  | r :: _ => Some r
  | [] => None
  end.

(** *** ZXing *)

(** What [readBarcodeFromPixmap] hands back when it has read something. *)
Record ZxingResult := { text : list Z; format : list Z }.

Class ZxingDecoder := {
  zxing_state : Type;
  zxing_malloc : Z -> list Z -> zxing_state -> outcome Z * list Z * zxing_state;
  zxing_free : Z -> list Z -> zxing_state -> outcome unit * list Z * zxing_state;
  zxing_readBarcodeFromPixmap :
    Z -> Z -> Z -> bool -> list Z -> list Z -> zxing_state ->
    outcome (option ZxingResult) * list Z * zxing_state
}.

(** The calls [KoderZxing.decode] makes, [ZxRead] with the memory the
    decoder is given. *)
Inductive ZxingCall :=
  | ZxMalloc (size : Z)
  | ZxRead (heap : list Z) (buffer width height : Z) (mode : bool) (fmt : list Z)
  | ZxFree (buffer : Z).

Definition ZxingModule `{ZxingDecoder} : Type := WasmModule zxing_state ZxingCall.

Definition zxing_mod_malloc `{ZxingDecoder} (size : Z) : W ZxingModule Z :=
  native_call (ZxMalloc size) (zxing_malloc size).

Definition zxing_mod_free `{ZxingDecoder} (buffer : Z) : W ZxingModule unit :=
  native_call (ZxFree buffer) (zxing_free buffer).

Definition zxing_mod_readBarcodeFromPixmap `{ZxingDecoder} (buffer width height : Z)
    (mode : bool) (fmt : list Z) : W ZxingModule (option ZxingResult) :=
  fun m =>
    native_call (ZxRead (HEAPU8 m) buffer width height mode fmt)
      (zxing_readBarcodeFromPixmap buffer width height mode fmt) m.

(** The body of [KoderZxing.decode] on an initialised wrapper, [mode] and
    [format] having taken their defaults. *)
Definition KoderZxing_decode_body `{ZxingDecoder} (imgData : list Z) (width height : Z)
    (mode : bool) (fmt : list Z) : W ZxingModule (option Barcode) :=
  let+ buffer := zxing_mod_malloc (Z.of_nat (length imgData)) in
  let+ _ := HEAPU8_set imgData buffer in
  let results := [] in
  let+ result := zxing_mod_readBarcodeFromPixmap buffer width height mode fmt in
  let+ _ := zxing_mod_free buffer in
  let results :=
    match result with
    | Some r =>
        if 0 <? Z.of_nat (length (text r))
        then results ++ [{| code := text r; barcode_type := format r |}]
        else results
    | None => results
    end in
  oret (first_or_null results).

(** [decode(imgData, width, height, mode = true, format = "")] on a
    wrapper whose [this.mod] is set by [initialize], or not yet. *)
Definition KoderZxing_decode `{ZxingDecoder} (this_mod : option ZxingModule)
    (imgData : list Z) (width height : Z) (mode : option bool) (fmt : option (list Z))
  : outcome (option Barcode) * option ZxingModule :=
  match this_mod with
  | None => (Raises NotInitialised, None)
  | Some m =>
      let '(r, m') :=
        KoderZxing_decode_body imgData width height (default true mode) (default [] fmt) m in
      (r, Some m')
  end.

(** *** ZBar *)

Class ZbarDecoder := {
  zbar_state : Type;
  zbar_createBuffer : Z -> list Z -> zbar_state -> outcome Z * list Z * zbar_state;
  zbar_deleteBuffer : Z -> list Z -> zbar_state -> outcome unit * list Z * zbar_state;
  zbar_triggerDecode : Z -> Z -> Z -> list Z -> zbar_state -> outcome Z * list Z * zbar_state;
  zbar_getScanResults : list Z -> zbar_state -> outcome Z * list Z * zbar_state;
  zbar_getResultType : list Z -> zbar_state -> outcome Z * list Z * zbar_state;
  UTF8ToString : list Z -> Z -> list Z
}.

(** The calls [KoderZbar.decode] makes through [this.api],
    [ZbTriggerDecode] with the memory the decoder is given. *)
Inductive ZbarCall :=
  | ZbCreateBuffer (size : Z)
  | ZbDeleteBuffer (address : Z)
  | ZbTriggerDecode (heap : list Z) (buffer width height : Z)
  | ZbGetScanResults
  | ZbGetResultType.

Definition ZbarModule `{ZbarDecoder} : Type := WasmModule zbar_state ZbarCall.

Definition api_createBuffer `{ZbarDecoder} (size : Z) : W ZbarModule Z :=
  native_call (ZbCreateBuffer size) (zbar_createBuffer size).

Definition api_deleteBuffer `{ZbarDecoder} (address : Z) : W ZbarModule unit :=
  native_call (ZbDeleteBuffer address) (zbar_deleteBuffer address).

Definition api_triggerDecode `{ZbarDecoder} (buffer width height : Z) : W ZbarModule Z :=
  fun m =>
    native_call (ZbTriggerDecode (HEAPU8 m) buffer width height)
      (zbar_triggerDecode buffer width height) m.

Definition api_getScanResults `{ZbarDecoder} : W ZbarModule Z :=
  native_call ZbGetScanResults zbar_getScanResults.

Definition api_getResultType `{ZbarDecoder} : W ZbarModule Z :=
  native_call ZbGetResultType zbar_getResultType.

(** [this.mod.UTF8ToString(ptr)]: the text at [ptr] in the memory as it
    is now. *)
Definition mod_UTF8ToString `{ZbarDecoder} (ptr : Z) : W ZbarModule (list Z) :=
  fun m => (Returns (UTF8ToString (HEAPU8 m) ptr), m).

(** The body of [KoderZbar.decode] on an initialised wrapper. *)
Definition KoderZbar_decode_body `{ZbarDecoder} (imgData : list Z) (width height : Z)
  : W ZbarModule (option Barcode) :=
  let+ buffer := api_createBuffer (width * height * 4) in
  let+ _ := HEAPU8_set imgData buffer in
  let results := [] in
  let+ found := api_triggerDecode buffer width height in
  let+ results :=
    if 0 <? found then
      let+ resultAddress := api_getScanResults in
      let+ c := mod_UTF8ToString resultAddress in
      let+ typeAddress := api_getResultType in
      let+ t := mod_UTF8ToString typeAddress in
      let results := results ++ [{| code := c; barcode_type := t |}] in
      let+ _ := api_deleteBuffer resultAddress in
      oret results
    else oret results in
  oret (first_or_null results).

Definition KoderZbar_decode `{ZbarDecoder} (this_mod : option ZbarModule)
    (imgData : list Z) (width height : Z)
  : outcome (option Barcode) * option ZbarModule :=
  match this_mod with
  | None => (Raises NotInitialised, None)
  | Some m =>
      let '(r, m') := KoderZbar_decode_body imgData width height m in
      (r, Some m')
  end.

(** *** Small decoders to run the wrappers on

    Both allocate by bumping an address and never reuse memory; the ZXing
    one reads the first byte of the buffer as a one-character text (nothing
    when it is 0) and throws on a width of 0; the ZBar one reports that
    byte as its count and keeps its texts at addresses 0 and 1. *)
Definition demo_zxing : ZxingDecoder :=
  {| zxing_state := Z;
     zxing_malloc := fun size heap next => (Returns next, heap, next + size);
     zxing_free := fun buffer heap next => (Returns tt, heap, next);
     zxing_readBarcodeFromPixmap := fun buffer width height mode fmt heap next =>
       if width =? 0 then (Raises (NativeException 1), heap, next)
       else
         (Returns
            match heap !! Z.to_nat buffer with
            | Some c => if c =? 0 then None else Some {| text := [c]; format := fmt |}
            | None => None
            end, heap, next) |}.

Definition demo_zxing_module : @ZxingModule demo_zxing :=
  {| HEAPU8 := replicate 16 0; native_state := 4; calls := [] |}.

Definition demo_zbar : ZbarDecoder :=
  {| zbar_state := Z;
     zbar_createBuffer := fun size heap next => (Returns next, heap, next + size);
     zbar_deleteBuffer := fun address heap next => (Returns tt, heap, next);
     zbar_triggerDecode := fun buffer width height heap next =>
       (Returns (default 0 (heap !! Z.to_nat buffer)), heap, next);
     zbar_getScanResults := fun heap next => (Returns 0, heap, next);
     zbar_getResultType := fun heap next => (Returns 1, heap, next);
     UTF8ToString := fun heap ptr =>
       match heap !! Z.to_nat ptr with
       | Some c => if c =? 0 then [] else [c]
       | None => []
       end |}.

Definition demo_zbar_module : @ZbarModule demo_zbar :=
  {| HEAPU8 := replicate 16 0; native_state := 4; calls := [] |}.

(** * Properties *)

(** ** The platform model on known values *)

Example btoa_Man : b64_encode (lit "Man") = lit "TWFu".
Proof. reflexivity. Qed.
Example btoa_Ma : b64_encode (lit "Ma") = lit "TWE=".
Proof. reflexivity. Qed.
Example btoa_M : b64_encode (lit "M") = lit "TQ==".
Proof. reflexivity. Qed.
Example atob_padded : forgiving_base64_decode (lit "TQ==") = Some (lit "M").
Proof. reflexivity. Qed.
Example atob_spaced : forgiving_base64_decode (lit "TW E") = Some (lit "Ma").
Proof. reflexivity. Qed.
Example atob_rejects : forgiving_base64_decode (lit "TWE==") = None.
Proof. reflexivity. Qed.
Example parseInt_prefix : parseInt (lit "  -12abc") = Fin (-12).
Proof. reflexivity. Qed.
Example parseInt_hex : parseInt (lit "0x1F") = Fin 31.
Proof. reflexivity. Qed.
Example parseInt_null : parseInt (lit "null") = NaN.
Proof. reflexivity. Qed.
Example parseInt_rounds : parseInt (lit "9007199254740993") = Fin 9007199254740992.
Proof. reflexivity. Qed.
Example parseInt_empty : parseInt (lit "") = NaN.
Proof. reflexivity. Qed.
Example round_double_overflow : round_double (2 ^ 1024 - 2 ^ 970) = PInf.
Proof. vm_compute. reflexivity. Qed.
Example round_double_max : round_double (2 ^ 1024 - 2 ^ 970 - 1) = Fin (2 ^ 1024 - 2 ^ 971).
Proof. vm_compute. reflexivity. Qed.
Example toString_clock : Number_toString (Fin 1730000000000) = lit "1730000000000".
Proof. reflexivity. Qed.
Example toString_negative : Number_toString (Fin (-305)) = lit "-305".
Proof. reflexivity. Qed.
Example clock_moves :
  fst ((let* t1 := @Date_now demo_platform in
        let* _ := elapse 5 in
        let* t2 := Date_now in
        ret (t1, t2)) (empty_world demo_platform 1000))
  = Normal (1000, 1005).
Proof. reflexivity. Qed.
Example utf8_euro : utf8_encode [8364] = [226; 130; 172].
Proof. reflexivity. Qed.
Example utf8_pair : utf8_encode [55357; 56832] = [240; 159; 152; 128].
Proof. reflexivity. Qed.
Example utf8_lone : utf8_encode [55357; 65] = [239; 191; 189; 65].
Proof. reflexivity. Qed.

(** ** Codec *)

Lemma list_ind3 {A} (P : list A -> Prop) :
  P [] -> (forall a, P [a]) -> (forall a b, P [a; b]) ->
  (forall a b c rest, P rest -> P (a :: b :: c :: rest)) ->
  forall l, P l.
Proof.
  intros H0 H1 H2 H3 l.
  assert (G : P l /\ (forall a, P (a :: l)) /\ (forall a b, P (a :: b :: l))).
  { induction l as [|x l (IH0 & IH1 & IH2)]; [by auto|].
    split; [apply IH1|]. split; [intros; apply IH2|]. intros a b. by apply H3. }
  apply G.
Qed.

Lemma ToUint8_byte b : is_byte b -> ToUint8 b = b.
Proof. unfold is_byte, ToUint8. intros. apply Z.mod_small. lia. Qed.

Lemma ToUint16_byte b : is_byte b -> ToUint16 b = b.
Proof. unfold is_byte, ToUint16. intros. apply Z.mod_small. lia. Qed.

Lemma fromCharCode_bytes buf : is_bytes buf -> fromCharCode buf = buf.
Proof.
  unfold fromCharCode. induction 1 as [|b buf Hb _ IH]; simpl; [done|].
  by rewrite ToUint16_byte, IH.
Qed.

(** [ab2str] on a buffer the engine can spread, and on one it cannot. *)
Lemma ab2str_bytes `{Platform} buf (w : World) :
  is_bytes buf -> Z.of_nat (length buf) <= max_arguments ->
  ab2str buf w = (Normal buf, w).
Proof.
  intros Hb Hlen. unfold ab2str.
  destruct (Z.leb_spec (Z.of_nat (length buf)) max_arguments); [|lia].
  unfold ret. by rewrite fromCharCode_bytes.
Qed.

Lemma ab2str_too_long `{Platform} buf (w : World) :
  max_arguments < Z.of_nat (length buf) -> ab2str buf w = (Throw CallRangeError, w).
Proof.
  intros Hlen. unfold ab2str.
  by destruct (Z.leb_spec (Z.of_nat (length buf)) max_arguments); [lia|].
Qed.

Lemma ab2str_normal `{Platform} buf (w : World) s w' :
  ab2str buf w = (Normal s, w') ->
  s = fromCharCode buf /\ w' = w /\ Z.of_nat (length buf) <= max_arguments.
Proof.
  unfold ab2str. destruct (Z.leb_spec (Z.of_nat (length buf)) max_arguments);
    unfold ret, throw; intros [= <- <-]; done.
Qed.

Lemma ab2str_frame `{Platform} buf (w : World) (r : completion (list Z)) w' :
  ab2str buf w = (r, w') -> w' = w.
Proof. unfold ab2str, ret, throw. case_match; by intros [= <- <-]. Qed.

(** The loop fills the view from index [i] on and leaves what is before. *)
Lemma str2ab_loop_spec str n i bufView :
  length bufView = length str -> (i + n)%nat = length str ->
  str2ab_loop str n i bufView = take i bufView ++ map ToUint8 (drop i str).
Proof.
  revert i bufView. induction n as [|n IH]; intros i bufView Hlen Hi; simpl.
  - rewrite Nat.add_0_r in Hi. subst i. rewrite <- Hlen at 1.
    rewrite firstn_all. rewrite drop_all. simpl. by rewrite app_nil_r.
  - assert (Hlt : (i < length str)%nat) by lia.
    destruct (lookup_lt_is_Some_2 str i Hlt) as [c Hc].
    rewrite IH; [|by rewrite length_insert|lia].
    rewrite (drop_S str c i Hc). simpl.
    unfold charCodeAt. rewrite Hc.
    rewrite (take_S_r _ _ (ToUint8 c)).
    + rewrite take_insert_ge by lia. by rewrite <- app_assoc.
    + apply list_lookup_insert_eq. lia.
Qed.

Lemma str2ab_map str : str2ab str = map ToUint8 str.
Proof.
  unfold str2ab. rewrite str2ab_loop_spec; [done| |done].
  apply length_replicate.
Qed.

Lemma str2ab_bytes buf : is_bytes buf -> str2ab buf = buf.
Proof.
  rewrite str2ab_map. induction 1 as [|b buf Hb _ IH]; simpl; [done|].
  by rewrite ToUint8_byte, IH.
Qed.

(** C4 (as amended). Codec round trip: for every byte sequence [b] whose
    values are all below 256 and which is no longer than the engine takes
    arguments in one call, [str2ab (ab2str b)] is [b] again, with the same
    length and the same bytes; on a longer buffer [ab2str] throws the
    engine's RangeError and there is nothing to convert back. *)
Theorem codec_round_trip `{Platform} (b : list Z) (w : World) :
  is_bytes b ->
  (Z.of_nat (length b) <= max_arguments ->
   (let* s := ab2str b in ret (str2ab s)) w = (Normal b, w))
  /\ (max_arguments < Z.of_nat (length b) ->
      ab2str b w = (Throw CallRangeError, w)
      /\ (let* s := ab2str b in ret (str2ab s)) w = (Throw CallRangeError, w)).
Proof.
  intros Hb. split.
  - intros Hlen. unfold bind. rewrite ab2str_bytes by done.
    unfold ret. by rewrite str2ab_bytes.
  - intros Hlen. unfold bind. by rewrite ab2str_too_long.
Qed.

Lemma codec_round_trip_witness :
  is_bytes [0; 48; 130; 255]
  /\ (let* s := @ab2str demo_platform [0; 48; 130; 255] in ret (str2ab s))
       (empty_world demo_platform 0)
     = (Normal [0; 48; 130; 255], empty_world demo_platform 0).
Proof.
  assert (Hb : is_bytes [0; 48; 130; 255]).
  { repeat constructor; unfold is_byte; lia. }
  split; [exact Hb|].
  refine (proj1 (@codec_round_trip demo_platform [0; 48; 130; 255]
                   (empty_world demo_platform 0) Hb) _).
  simpl. lia.
Defined.

(** A buffer of 65537 bytes on an engine that takes 65536 arguments: every
    byte is below 256, and [ab2str] throws. *)
Lemma ab2str_long_buffer_throws :
  is_bytes (replicate (Z.to_nat 65537) 0)
  /\ @ab2str demo_platform (replicate (Z.to_nat 65537) 0) (empty_world demo_platform 0)
     = (Throw CallRangeError, empty_world demo_platform 0).
Proof.
  split.
  - apply Forall_replicate. unfold is_byte. lia.
  - vm_compute. reflexivity.
Qed.

(** C10. [str2ab] is a total function of its string: the buffer it returns
    has the length of the string, byte [i] is the code unit at [i] reduced
    modulo 256 (so a code unit above 255 wraps and is not rejected), and
    every byte is in range. *)
Theorem str2ab_total_wraps (str : list Z) :
  length (str2ab str) = length str
  /\ (forall i : nat, str2ab str !! i = (fun c => c mod 256) <$> str !! i)
  /\ is_bytes (str2ab str).
Proof.
  rewrite str2ab_map. split; [apply length_map|]. split.
  - intros i. apply list_lookup_fmap.
  - unfold is_bytes. induction str as [|c str IH]; simpl; constructor; [|done].
    unfold is_byte, ToUint8. apply Z.mod_pos_bound. lia.
Qed.

Example str2ab_wraps_euro : str2ab [65; 8364; 322] = [65; 172; 66].
Proof. reflexivity. Qed.

(** ** Base64 *)

Lemma sextets_range bs : is_bytes bs -> Forall is_sextet (sextets bs).
Proof.
  unfold is_bytes. induction bs as [|a|a b|a b c rest IH] using list_ind3; intros Hb.
  - constructor.
  - inversion_clear Hb as [|? ? Ha _]. unfold is_byte in Ha.
    repeat constructor; unfold is_sextet; Z.div_mod_to_equations; lia.
  - inversion_clear Hb as [|? ? Ha Hb']. inversion_clear Hb' as [|? ? Hb _].
    unfold is_byte in *.
    repeat constructor; unfold is_sextet; Z.div_mod_to_equations; lia.
  - inversion_clear Hb as [|? ? Ha Hb']. inversion_clear Hb' as [|? ? Hb Hc'].
    inversion_clear Hc' as [|? ? Hc Hrest]. unfold is_byte in *.
    change (sextets (a :: b :: c :: rest)) with
      (a / 4 :: (a mod 4) * 16 + b / 16 :: (b mod 16) * 4 + c / 64 :: c mod 64
         :: sextets rest).
    repeat (constructor; [unfold is_sextet; Z.div_mod_to_equations; lia|]).
    by apply IH.
Qed.

Lemma b64_value_char v : is_sextet v -> b64_value (b64_char v) = Some v.
Proof.
  unfold is_sextet, b64_value, b64_char. intros Hv.
  repeat (case_match; simpl in *; try lia; try (f_equal; lia)).
Qed.

Lemma b64_char_plain v :
  is_sextet v -> is_ascii_whitespace (b64_char v) = false /\ b64_char v <> 61.
Proof.
  unfold is_sextet, is_ascii_whitespace, b64_char. intros Hv.
  repeat case_match; split; lia.
Qed.

Lemma b64_decode_sextets bs : is_bytes bs -> b64_decode_groups (sextets bs) = bs.
Proof.
  unfold is_bytes. induction bs as [|a|a b|a b c rest IH] using list_ind3; intros Hb.
  - done.
  - inversion_clear Hb as [|? ? Ha _]. unfold is_byte in Ha. simpl.
    f_equal. Z.div_mod_to_equations; lia.
  - inversion_clear Hb as [|? ? Ha Hb']. inversion_clear Hb' as [|? ? Hb _].
    unfold is_byte in *. simpl.
    f_equal; [|f_equal]; Z.div_mod_to_equations; lia.
  - inversion_clear Hb as [|? ? Ha Hb']. inversion_clear Hb' as [|? ? Hb Hc'].
    inversion_clear Hc' as [|? ? Hc Hrest]. unfold is_byte in *.
    change (b64_decode_groups (sextets (a :: b :: c :: rest))) with
      (((a / 4) * 4 + ((a mod 4) * 16 + b / 16) / 16)
         :: ((((a mod 4) * 16 + b / 16) mod 16) * 16 + ((b mod 16) * 4 + c / 64) / 4)
         :: ((((b mod 16) * 4 + c / 64) mod 4) * 64 + c mod 64)
         :: b64_decode_groups (sextets rest)).
    rewrite IH by done.
    f_equal; [|f_equal; [|f_equal]]; Z.div_mod_to_equations; lia.
Qed.

(** Shape of an encoding: whole quanta, or a last quantum of two sextets
    and two '=' or of three sextets and one '='. *)
Lemma sextets_shape bs :
  exists k : nat,
    (length (sextets bs) = 4 * k /\ b64_padding bs = 0)%nat
    \/ (length (sextets bs) = 4 * k + 2 /\ b64_padding bs = 2)%nat
    \/ (length (sextets bs) = 4 * k + 3 /\ b64_padding bs = 1)%nat.
Proof.
  induction bs as [|a|a b|a b c rest [k IH]] using list_ind3.
  - exists 0%nat. by left.
  - exists 0%nat. right. by left.
  - exists 0%nat. right. by right.
  - exists (S k).
    assert (Hp : b64_padding (a :: b :: c :: rest) = b64_padding rest).
    { unfold b64_padding.
      replace (length (a :: b :: c :: rest)) with (length rest + 1 * 3)%nat
        by (simpl; lia).
      by rewrite Nat.Div0.mod_add. }
    rewrite Hp.
    change (length (sextets (a :: b :: c :: rest)))
      with (S (S (S (S (length (sextets rest)))))).
    lia.
Qed.

Lemma filter_keeps_all {A} (f : A -> bool) l :
  Forall (fun x => f x = true) l -> List.filter f l = l.
Proof.
  induction 1 as [|x l Hx _ IH]; simpl; [done|]. by rewrite Hx, IH.
Qed.

Lemma strip_trailing_eq_padding l k :
  Forall (fun c => c <> 61) l -> (k <= 2)%nat ->
  strip_trailing_eq (l ++ replicate k 61) = l.
Proof.
  intros Hl Hk. unfold strip_trailing_eq.
  assert (Hrev : Forall (fun c => c <> 61) (rev l)) by by apply Forall_rev.
  destruct k as [|[|[|k]]]; [| | |lia]; simpl replicate.
  - rewrite app_nil_r. destruct (rev l) as [|x [|y r]] eqn:E; [done| |].
    + inversion_clear Hrev as [|? ? Hx _]. by destruct (Z.eqb_spec x 61).
    + inversion_clear Hrev as [|? ? Hx _]. by destruct (Z.eqb_spec x 61).
  - rewrite rev_unit. destruct (rev l) as [|y r] eqn:E.
    + simpl. apply (f_equal (@rev Z)) in E. rewrite rev_involutive in E. by subst.
    + inversion_clear Hrev as [|? ? Hy _]. simpl.
      destruct (Z.eqb_spec y 61); [done|].
      change (rev r ++ [y]) with (rev (y :: r)). rewrite <- E.
      apply rev_involutive.
  - change (l ++ [61; 61]) with (l ++ [61] ++ [61]).
    rewrite app_assoc, !rev_unit. simpl. apply rev_involutive.
Qed.

Lemma b64_chars_plain vs :
  Forall is_sextet vs ->
  Forall (fun c => negb (is_ascii_whitespace c) = true) (map b64_char vs)
  /\ Forall (fun c => c <> 61) (map b64_char vs)
  /\ mapM b64_value (map b64_char vs) = Some vs.
Proof.
  induction 1 as [|v vs Hv _ (IH1 & IH2 & IH3)]; simpl; [by repeat split|].
  destruct (b64_char_plain v Hv) as [Hws Hne].
  split; [constructor; [by rewrite Hws|done]|].
  split; [by constructor|].
  rewrite b64_value_char by done. simpl. by rewrite IH3.
Qed.

(** Decoding an encoding gives back the bytes. *)
Lemma base64_round_trip bs :
  is_bytes bs -> forgiving_base64_decode (b64_encode bs) = Some bs.
Proof.
  intros Hb. pose proof (sextets_range bs Hb) as Hs.
  destruct (b64_chars_plain _ Hs) as (Hws & Hne & Hval).
  unfold forgiving_base64_decode, b64_encode.
  rewrite filter_keeps_all.
  2:{ apply Forall_app. split; [done|].
      apply Forall_forall. intros x Hx. apply elem_of_replicate in Hx as [-> _].
      reflexivity. }
  destruct (sextets_shape bs) as [k Hk].
  assert (Hpad : (b64_padding bs <= 2)%nat) by lia.
  assert (Hlen4 : (length (map b64_char (sextets bs) ++ replicate (b64_padding bs) 61%Z)
                   mod 4 = 0)%nat).
  { rewrite length_app, length_map, length_replicate.
    destruct Hk as [[-> ->]|[[-> ->]|[-> ->]]].
    - rewrite Nat.add_0_r, Nat.mul_comm. apply Nat.Div0.mod_mul.
    - replace (4 * k + 2 + 2)%nat with ((k + 1) * 4)%nat by lia. apply Nat.Div0.mod_mul.
    - replace (4 * k + 3 + 1)%nat with ((k + 1) * 4)%nat by lia. apply Nat.Div0.mod_mul. }
  rewrite Hlen4, Nat.eqb_refl.
  rewrite strip_trailing_eq_padding by done.
  assert (Hlen1 : (length (map b64_char (sextets bs)) mod 4 =? 1)%nat = false).
  { rewrite length_map. apply Nat.eqb_neq.
    destruct Hk as [[-> _]|[[-> _]|[-> _]]].
    - rewrite Nat.mul_comm, Nat.Div0.mod_mul. lia.
    - rewrite Nat.add_comm, Nat.mul_comm, Nat.Div0.mod_add. simpl. lia.
    - rewrite Nat.add_comm, Nat.mul_comm, Nat.Div0.mod_add. simpl. lia. }
  rewrite Hlen1, Hval. simpl. by rewrite b64_decode_sextets.
Qed.

Lemma is_latin1_bytes buf : is_bytes buf -> is_latin1 buf = true.
Proof.
  unfold is_latin1. induction 1 as [|b buf Hb _ IH]; simpl; [done|].
  rewrite IH. unfold is_byte in Hb. rewrite andb_true_r. apply Z.leb_le. lia.
Qed.

Lemma window_btoa_bytes `{Platform} buf (w : World) :
  is_bytes buf -> window_btoa buf w = (Normal (b64_encode buf), w).
Proof. intros Hb. unfold window_btoa. by rewrite is_latin1_bytes. Qed.

Lemma window_atob_encoded `{Platform} buf (w : World) :
  is_bytes buf -> window_atob (b64_encode buf) w = (Normal buf, w).
Proof. intros Hb. unfold window_atob. by rewrite base64_round_trip. Qed.



(** ** The expiry text read back *)

Lemma round_double_safe z : Z.abs z < 2 ^ 53 -> round_double z = Fin z.
Proof.
  intros Hz. unfold round_double.
  destruct (Z.ltb_spec (Z.abs z) (2 ^ 53)); [done|lia].
Qed.

Lemma numeral_value_snoc ds c : numeral_value (ds ++ [c]) = numeral_value ds * 10 + (c - 48).
Proof. unfold numeral_value. by rewrite fold_left_app. Qed.

Lemma decimal_digits_spec fuel n acc :
  0 <= n < 2 ^ Z.of_nat (S fuel) ->
  exists ds, decimal_digits (S fuel) n acc = ds ++ acc
    /\ ds <> [] /\ Forall is_digit ds /\ numeral_value ds = n.
Proof.
  revert n acc. induction fuel as [|fuel IH]; intros n acc Hn.
  - change (2 ^ Z.of_nat 1) with 2 in Hn. simpl.
    destruct (Z.ltb_spec n 10); [|lia].
    exists [48 + n mod 10]. rewrite Z.mod_small by lia.
    repeat split; [done| |unfold numeral_value; simpl; lia].
    constructor; [unfold is_digit; lia|constructor].
  - change (decimal_digits (S (S fuel)) n acc) with
      (if n <? 10 then 48 + n mod 10 :: acc
       else decimal_digits (S fuel) (n / 10) (48 + n mod 10 :: acc)).
    destruct (Z.ltb_spec n 10) as [Hlt|Hge].
    + exists [48 + n mod 10]. rewrite Z.mod_small by lia.
      repeat split; [done| |unfold numeral_value; simpl; lia].
      constructor; [unfold is_digit; lia|constructor].
    + assert (Hdiv : 0 <= n / 10 < 2 ^ Z.of_nat (S fuel)).
      { rewrite Nat2Z.inj_succ, Z.pow_succ_r in Hn by lia.
        split; [apply Z.div_pos; lia|].
        apply Z.div_lt_upper_bound; nia. }
      destruct (IH (n / 10) (48 + n mod 10 :: acc) Hdiv) as (ds & -> & Hne & Hds & Hval).
      exists (ds ++ [48 + n mod 10]). rewrite <- app_assoc. split; [done|].
      split; [by destruct ds|]. split.
      * apply Forall_app. split; [done|].
        constructor; [|constructor]. unfold is_digit.
        pose proof (Z.mod_pos_bound n 10). lia.
      * rewrite numeral_value_snoc, Hval. pose proof (Z.div_mod n 10). lia.
Qed.

Lemma take_digits_numeral ds :
  Forall is_digit ds -> take_digits 10 ds = map (fun c => c - 48) ds.
Proof.
  induction 1 as [|c ds Hc _ IH]; simpl; [done|].
  unfold is_digit in Hc. unfold radix_digit.
  destruct (Z.leb_spec 48 c); [|lia]. destruct (Z.leb_spec c 57); [|lia]. simpl.
  destruct (Z.ltb_spec (c - 48) 10); [|lia]. by rewrite IH.
Qed.

Lemma digits_value_numeral ds acc :
  fold_left (fun a d => a * 10 + d) (map (fun c => c - 48) ds) acc
  = fold_left (fun a c => a * 10 + (c - 48)) ds acc.
Proof. revert acc. induction ds as [|c ds IH]; intros acc; simpl; [done|]. apply IH. Qed.

Lemma strip_prefix_numeral ds : Forall is_digit ds -> strip_prefix ds = (10, ds).
Proof.
  intros Hds. destruct ds as [|c [|x ds]]; [done..|].
  inversion_clear Hds as [|? ? _ Hrest]. inversion_clear Hrest as [|? ? Hx _].
  unfold is_digit in Hx. unfold strip_prefix.
  destruct (Z.eqb_spec x 120); [lia|]. destruct (Z.eqb_spec x 88); [lia|].
  by rewrite andb_false_r.
Qed.

(** [parseInt] of a run of decimal digits, with or without a minus sign. *)
Lemma parseInt_numeral (neg : bool) ds :
  ds <> [] -> Forall is_digit ds ->
  parseInt (if neg then 45 :: ds else ds)
  = round_double ((if neg then -1 else 1) * numeral_value ds).
Proof.
  intros Hne Hds.
  assert (Htail : forall sign,
    (let '(R, S2) := strip_prefix ds in
     match take_digits R S2 with
     | [] => NaN
     | vs => round_double (sign * digits_value R vs)
     end) = round_double (sign * numeral_value ds)).
  { intros sign. rewrite strip_prefix_numeral, take_digits_numeral by done.
    unfold digits_value, numeral_value. rewrite <- digits_value_numeral.
    destruct ds as [|c ds]; done. }
  unfold parseInt. destruct neg.
  - change (trim_start (45 :: ds)) with (45 :: ds).
    change (strip_sign (45 :: ds)) with (-1, ds). apply Htail.
  - destruct ds as [|c ds]; [done|].
    inversion Hds as [|? ? Hc _]; subst. unfold is_digit in Hc.
    assert (Hws : is_StrWhiteSpaceChar c = false).
    { unfold is_StrWhiteSpaceChar. repeat (apply orb_false_iff; split); lia. }
    simpl trim_start. rewrite Hws. unfold strip_sign.
    destruct (Z.eqb_spec c 45); [lia|]. destruct (Z.eqb_spec c 43); [lia|].
    apply Htail.
Qed.

(** The text [toString] writes for a safe integer reads back as that
    integer: what a save stores as ttl is what a load compares with. *)
Lemma parseInt_decimal z : Z.abs z < 2 ^ 53 -> parseInt (decimal z) = Fin z.
Proof.
  intros Hz. unfold decimal.
  assert (Hfuel : 0 <= Z.abs z < 2 ^ Z.of_nat (S (Z.to_nat (Z.log2 (Z.abs z))))).
  { split; [lia|]. rewrite Nat2Z.inj_succ, Z2Nat.id by apply Z.log2_nonneg.
    destruct (Z.eq_dec (Z.abs z) 0) as [->|Hnz]; [done|].
    apply Z.log2_spec. lia. }
  destruct (decimal_digits_spec _ _ [] Hfuel) as (ds & -> & Hne & Hds & Hval).
  rewrite app_nil_r.
  rewrite (parseInt_numeral (z <? 0) ds Hne Hds), Hval.
  destruct (Z.ltb_spec z 0).
  - replace (-1 * Z.abs z) with z by lia. by apply round_double_safe.
  - replace (1 * Z.abs z) with z by lia. by apply round_double_safe.
Qed.

(** ** Key store: loading *)

(** Case analysis on every test of a platform operation, closing each
    branch by the world it leaves. *)
Ltac by_branches := repeat case_match; intros [= <- <-]; eauto.

Section Load.
Context `{Platform}.
Implicit Types (w : World) (sk pk : list Z).

(** What remains of [fetchKeysFromLocalStorage] once both key fields were
    read: the expiry test and the import. *)
Lemma fetch_present w sk pk :
  localStorage w !! "privateKeyBase64" = Some sk ->
  localStorage w !! "publicKeyBase64" = Some pk ->
  fetchKeysFromLocalStorage w
  = if js_lt (Fin (clock w)) (parseInt (ToString_nullable (localStorage w !! "ttl")))
    then (let* k := importPrivateKey sk in
          ret {| fetched_privateKey := k; fetched_publicKey := pk |}) w
    else (Throw (Error "keys expired"), w).
Proof.
  intros Hsk Hpk.
  unfold fetchKeysFromLocalStorage, bind at 1, localStorage_getItem at 1.
  rewrite Hsk. unfold bind at 1, localStorage_getItem at 1. rewrite Hpk.
  unfold bind at 1, localStorage_getItem at 1.
  unfold bind at 1, Date_now at 1.
  by destruct (js_lt _ _).
Qed.

(** C3. Missing fields: with no private-key field the load throws
    Error("private key not found"); with a private-key field but no
    public-key field it throws Error("public key not found"); the private
    key is looked up first, so an empty store reports the private key. *)
Theorem fetch_missing_fields w :
  (localStorage w !! "privateKeyBase64" = None ->
   fetchKeysFromLocalStorage w = (Throw (Error "private key not found"), w))
  /\ (is_Some (localStorage w !! "privateKeyBase64") ->
      localStorage w !! "publicKeyBase64" = None ->
      fetchKeysFromLocalStorage w = (Throw (Error "public key not found"), w))
  /\ (localStorage w = ∅ ->
      fetchKeysFromLocalStorage w = (Throw (Error "private key not found"), w)).
Proof.
  assert (Hpriv : localStorage w !! "privateKeyBase64" = None ->
    fetchKeysFromLocalStorage w = (Throw (Error "private key not found"), w)).
  { intros Hsk.
    unfold fetchKeysFromLocalStorage, bind at 1, localStorage_getItem at 1.
    by rewrite Hsk. }
  split; [exact Hpriv|]. split.
  - intros [sk Hsk] Hpk.
    unfold fetchKeysFromLocalStorage, bind at 1, localStorage_getItem at 1.
    rewrite Hsk. unfold bind at 1, localStorage_getItem at 1. by rewrite Hpk.
  - intros Hempty. apply Hpriv. rewrite Hempty. apply lookup_empty.
Qed.

Lemma window_atob_throws s w e w' :
  window_atob s w = (Throw e, w') -> e = DOMException "InvalidCharacterError" /\ w' = w.
Proof.
  unfold window_atob. destruct (forgiving_base64_decode s); unfold ret, throw;
    intros [= <- <-]; done.
Qed.

Lemma window_atob_normal s w a w' :
  window_atob s w = (Normal a, w') -> forgiving_base64_decode s = Some a /\ w' = w.
Proof.
  unfold window_atob. destruct (forgiving_base64_decode s); unfold ret, throw;
    intros [= <- <-]; done.
Qed.

(** Every exception of [importKey] is a DOMException. *)
Lemma subtle_importKey_throws fmt der alg ext us w e w' :
  subtle_importKey fmt der alg ext us w = (Throw e, w') -> exists n, e = DOMException n.
Proof.
  unfold subtle_importKey, bind, called, throw, ret. by_branches.
Qed.

Lemma importPrivateKey_throws sk w e w' :
  importPrivateKey sk w = (Throw e, w') -> exists n, e = DOMException n.
Proof.
  unfold importPrivateKey, bind.
  destruct (window_atob sk w) as [[a|e0] w0] eqn:Ha.
  - apply subtle_importKey_throws.
  - intros [= <- <-]. apply window_atob_throws in Ha as [-> _]. eauto.
Qed.

(** C9. With both key fields present and the ttl field absent, or holding
    text that [parseInt] turns into NaN, the load throws
    Error("keys expired") and not a not-found error: the comparison with
    NaN is false, so the expired branch runs. *)
Theorem fetch_unparsable_ttl_expired w sk pk :
  localStorage w !! "privateKeyBase64" = Some sk ->
  localStorage w !! "publicKeyBase64" = Some pk ->
  localStorage w !! "ttl" = None
  \/ parseInt (ToString_nullable (localStorage w !! "ttl")) = NaN ->
  parseInt (ToString_nullable (localStorage w !! "ttl")) = NaN
  /\ js_lt (Fin (clock w)) (parseInt (ToString_nullable (localStorage w !! "ttl"))) = false
  /\ fetchKeysFromLocalStorage w = (Throw (Error "keys expired"), w).
Proof.
  intros Hsk Hpk Httl.
  assert (Hnan : parseInt (ToString_nullable (localStorage w !! "ttl")) = NaN).
  { destruct Httl as [Hnone|Hnan]; [|done]. rewrite Hnone. reflexivity. }
  rewrite (fetch_present w sk pk Hsk Hpk), Hnan. done.
Qed.

(** C1 (as amended). With both key fields present and a ttl field that
    reads as the integer [E], the load throws Error("keys expired") exactly
    when the clock is at or past [E] (so also at the expiry instant itself);
    before [E] it goes on to import the private key and returns that key
    with the stored public-key text exactly when the import succeeds, the
    import's own exception being thrown otherwise. *)
Theorem fetch_expiry_boundary w sk pk (E : Z) :
  localStorage w !! "privateKeyBase64" = Some sk ->
  localStorage w !! "publicKeyBase64" = Some pk ->
  parseInt (ToString_nullable (localStorage w !! "ttl")) = Fin E ->
  (fst (fetchKeysFromLocalStorage w) = Throw (Error "keys expired") <-> E <= clock w)
  /\ (E <= clock w -> fetchKeysFromLocalStorage w = (Throw (Error "keys expired"), w))
  /\ (clock w < E ->
      fetchKeysFromLocalStorage w
      = (let* k := importPrivateKey sk in
         ret {| fetched_privateKey := k; fetched_publicKey := pk |}) w).
Proof.
  intros Hsk Hpk HE. rewrite (fetch_present w sk pk Hsk Hpk), HE. simpl js_lt.
  destruct (Z.ltb_spec (clock w) E) as [Hlt|Hge].
  - split; [|split; [lia|done]]. split; [|lia].
    unfold bind. destruct (importPrivateKey sk w) as [[k|e] w'] eqn:Hi; simpl.
    + unfold ret. discriminate.
    + apply importPrivateKey_throws in Hi as [n ->]. discriminate.
  - split; [|split; [done|lia]]. split; [lia|done].
Qed.

End Load.

Lemma fetch_missing_fields_witness :
  @fetchKeysFromLocalStorage demo_platform (empty_world demo_platform 5)
  = (Throw (Error "private key not found"), empty_world demo_platform 5).
Proof.
  exact (proj1 (@fetch_missing_fields demo_platform (empty_world demo_platform 5))
           (lookup_empty _)).
Defined.

Lemma fetch_expiry_boundary_witness :
  @fetchKeysFromLocalStorage demo_platform (expiry_demo_world (lit "MAI=") 2000)
  = (Throw (Error "keys expired"), expiry_demo_world (lit "MAI=") 2000).
Proof.
  refine (proj1 (proj2 (@fetch_expiry_boundary demo_platform
            (expiry_demo_world (lit "MAI=") 2000) (lit "MAI=") (lit "cGs=") 2000
            _ _ _)) _).
  - reflexivity.
  - reflexivity.
  - reflexivity.
  - simpl. lia.
Defined.

(** The load of a record that has not expired still fails when its
    private-key field is not Base64 text: [atob] throws. *)
Lemma fetch_before_expiry_can_fail :
  localStorage (expiry_demo_world (lit "!") 1000) !! "privateKeyBase64" = Some (lit "!")
  /\ localStorage (expiry_demo_world (lit "!") 1000) !! "publicKeyBase64" = Some (lit "cGs=")
  /\ parseInt (ToString_nullable (localStorage (expiry_demo_world (lit "!") 1000) !! "ttl"))
     = Fin 2000
  /\ clock (expiry_demo_world (lit "!") 1000) < 2000
  /\ @fetchKeysFromLocalStorage demo_platform (expiry_demo_world (lit "!") 1000)
     = (Throw (DOMException "InvalidCharacterError"), expiry_demo_world (lit "!") 1000).
Proof. repeat split. Qed.

Lemma fetch_unparsable_ttl_expired_witness :
  @fetchKeysFromLocalStorage demo_platform no_ttl_demo_world
  = (Throw (Error "keys expired"), no_ttl_demo_world).
Proof.
  refine (proj2 (proj2 (@fetch_unparsable_ttl_expired demo_platform no_ttl_demo_world
            (lit "MAI=") (lit "cGs=") _ _ _))).
  - reflexivity.
  - reflexivity.
  - left. reflexivity.
Defined.

(** ** Key store: saving *)

Section Save.
Context `{Platform}.
Implicit Types (w : World) (keys : option CryptoKeyPair).

(** A clock reading plus the hour is still exactly representable. *)
Lemma expiry_exact now :
  time_value now -> js_add (Fin now) (Fin (3600 * 1000)) = Fin (now + 3600000).
Proof.
  unfold time_value. intros Hn. simpl js_add.
  change (3600 * 1000) with 3600000. apply round_double_safe.
  change (2 ^ 53) with 9007199254740992. lia.
Qed.

Lemma subtle_exportKey_frame fmt k w r w' :
  subtle_exportKey fmt k w = (r, w') ->
  localStorage w' = localStorage w /\ console w' = console w /\ clock w' = clock w.
Proof.
  unfold subtle_exportKey, bind, called, throw, ret. by_branches.
Qed.

Lemma window_btoa_frame s w (r : completion (list Z)) w' :
  window_btoa s w = (r, w') -> w' = w.
Proof. unfold window_btoa, ret, throw. case_match; by intros [= <- <-]. Qed.

Lemma exportPrivateKeyToBase64_frame k w r w' :
  exportPrivateKeyToBase64 k w = (r, w') ->
  localStorage w' = localStorage w /\ console w' = console w /\ clock w' = clock w.
Proof.
  unfold exportPrivateKeyToBase64, bind.
  destruct (subtle_exportKey pkcs8 k w) as [[a|e] w0] eqn:He;
    apply subtle_exportKey_frame in He.
  - destruct (ab2str a w0) as [[s|e] w1] eqn:Ha; apply ab2str_frame in Ha; subst w1.
    + intros Hb. apply window_btoa_frame in Hb. by subst.
    + by intros [= <- <-].
  - by intros [= <- <-].
Qed.

Lemma exportPublicKeyToBase64_frame k w r w' :
  exportPublicKeyToBase64 k w = (r, w') ->
  localStorage w' = localStorage w /\ console w' = console w /\ clock w' = clock w.
Proof.
  unfold exportPublicKeyToBase64, bind.
  destruct (subtle_exportKey spki k w) as [[a|e] w0] eqn:He;
    apply subtle_exportKey_frame in He.
  - destruct (ab2str a w0) as [[s|e] w1] eqn:Ha; apply ab2str_frame in Ha; subst w1.
    + intros Hb. apply window_btoa_frame in Hb. by subst.
    + by intros [= <- <-].
  - by intros [= <- <-].
Qed.

Lemma localStorage_setItem_normal key value w w' :
  localStorage_setItem key value w = (Normal tt, w') ->
  w' = with_storage (<[key := value]> (localStorage w)) w.
Proof. unfold localStorage_setItem. case_match; by intros [= <-]. Qed.

(** C5. [saveKeysToLocalStorage] always returns normally, whatever its
    argument and the state of the world; and when the export of the private
    key, or after it of the public key, throws, the exception is logged on
    the console and the store is as it was before the call. *)
Theorem save_never_throws keys w :
  (exists w', saveKeysToLocalStorage keys w = (Normal tt, w'))
  /\ (forall kp e w1,
        keys = Some kp ->
        exportPrivateKeyToBase64 (privateKey kp) w = (Throw e, w1) ->
        exists w', saveKeysToLocalStorage keys w = (Normal tt, w')
          /\ console w' = console w ++ [e]
          /\ localStorage w' = localStorage w)
  /\ (forall kp sk w1 e w2,
        keys = Some kp ->
        exportPrivateKeyToBase64 (privateKey kp) w = (Normal sk, w1) ->
        exportPublicKeyToBase64 (publicKey kp) w1 = (Throw e, w2) ->
        exists w', saveKeysToLocalStorage keys w = (Normal tt, w')
          /\ console w' = console w ++ [e]
          /\ localStorage w' = localStorage w).
Proof.
  split; [|split].
  - unfold saveKeysToLocalStorage, try_catch.
    destruct (saveKeys_try keys w) as [[[]|e] w0]; unfold console_error; eauto.
  - intros kp e w1 -> He.
    destruct (exportPrivateKeyToBase64_frame _ _ _ _ He) as (Hs & Hc & _).
    exists (with_console (console w1 ++ [e]) w1).
    unfold saveKeysToLocalStorage, try_catch, saveKeys_try, bind at 1.
    unfold destructure_keys at 1, ret at 1, bind at 1. simpl fst. rewrite He.
    unfold console_error. simpl. by rewrite Hs, Hc.
  - intros kp sk w1 e w2 -> Hsk He.
    destruct (exportPrivateKeyToBase64_frame _ _ _ _ Hsk) as (Hs1 & Hc1 & _).
    destruct (exportPublicKeyToBase64_frame _ _ _ _ He) as (Hs2 & Hc2 & _).
    exists (with_console (console w2 ++ [e]) w2).
    unfold saveKeysToLocalStorage, try_catch, saveKeys_try, bind at 1.
    unfold destructure_keys at 1, ret at 1, bind at 1. simpl fst. rewrite Hsk.
    unfold bind at 1. simpl snd. rewrite He.
    unfold console_error. simpl. by rewrite Hs2, Hc2, Hs1, Hc1.
Qed.

Lemma localStorage_setItem_throw key value w e w' :
  localStorage_setItem key value w = (Throw e, w') -> w' = w.
Proof. unfold localStorage_setItem. case_match; by intros [= <-]. Qed.

(** A completed [try] block has exported both keys and made the three
    writes, the last being the expiry. *)
Lemma saveKeys_try_normal keys w w' :
  time_value (clock w) ->
  saveKeys_try keys w = (Normal tt, w') ->
  exists kp sk pk w1 w2,
    keys = Some kp
    /\ exportPrivateKeyToBase64 (privateKey kp) w = (Normal sk, w1)
    /\ exportPublicKeyToBase64 (publicKey kp) w1 = (Normal pk, w2)
    /\ w' = with_storage
              (<["ttl" := decimal (clock w + 3600000)]>
                 (<["publicKeyBase64" := pk]>
                    (<["privateKeyBase64" := sk]> (localStorage w)))) w2.
Proof.
  intros Hclock. unfold saveKeys_try, bind at 1.
  destruct keys as [kp|]; [|discriminate]. unfold destructure_keys, ret at 1.
  unfold bind at 1. simpl fst.
  destruct (exportPrivateKeyToBase64 (privateKey kp) w) as [[sk|e] w1] eqn:Hsk;
    [|discriminate].
  unfold bind at 1. simpl snd.
  destruct (exportPublicKeyToBase64 (publicKey kp) w1) as [[pk|e] w2] eqn:Hpk;
    [|discriminate].
  destruct (exportPrivateKeyToBase64_frame _ _ _ _ Hsk) as (Hs1 & _ & Ht1).
  destruct (exportPublicKeyToBase64_frame _ _ _ _ Hpk) as (Hs2 & _ & Ht2).
  unfold bind at 1, Date_now at 1.
  rewrite Ht2, Ht1, (expiry_exact _ Hclock). simpl Number_toString.
  unfold bind at 1.
  destruct (localStorage_setItem "privateKeyBase64" sk w2) as [[[]|e] w3] eqn:H1;
    [|discriminate].
  apply localStorage_setItem_normal in H1. subst w3.
  unfold bind at 1.
  destruct (localStorage_setItem "publicKeyBase64" pk _) as [[[]|e] w4] eqn:H2;
    [|discriminate].
  apply localStorage_setItem_normal in H2. subst w4.
  intros H3. apply localStorage_setItem_normal in H3. subst w'.
  exists kp, sk, pk, w1, w2. repeat split; [done..|].
  unfold with_storage. simpl. by rewrite Hs2, Hs1.
Qed.

(** A [try] block that throws has not written the expiry. *)
Lemma saveKeys_try_throw keys w e w' :
  saveKeys_try keys w = (Throw e, w') ->
  localStorage w' !! "ttl" = localStorage w !! "ttl".
Proof.
  unfold saveKeys_try, bind at 1.
  destruct keys as [kp|]; [|by intros [= _ <-]]. unfold destructure_keys, ret at 1.
  unfold bind at 1. simpl fst.
  destruct (exportPrivateKeyToBase64 (privateKey kp) w) as [[sk|e1] w1] eqn:Hsk;
    destruct (exportPrivateKeyToBase64_frame _ _ _ _ Hsk) as (Hs1 & _ & _);
    [|intros [= _ <-]; by rewrite Hs1].
  unfold bind at 1. simpl snd.
  destruct (exportPublicKeyToBase64 (publicKey kp) w1) as [[pk|e2] w2] eqn:Hpk;
    destruct (exportPublicKeyToBase64_frame _ _ _ _ Hpk) as (Hs2 & _ & _);
    [|intros [= _ <-]; by rewrite Hs2, Hs1].
  unfold bind at 1, Date_now at 1. unfold bind at 1.
  destruct (localStorage_setItem "privateKeyBase64" sk w2) as [[[]|e3] w3] eqn:H1.
  2:{ apply localStorage_setItem_throw in H1. subst w3.
      intros [= _ <-]. by rewrite Hs2, Hs1. }
  apply localStorage_setItem_normal in H1. subst w3.
  unfold bind at 1.
  destruct (localStorage_setItem "publicKeyBase64" pk _) as [[[]|e4] w4] eqn:H2.
  2:{ apply localStorage_setItem_throw in H2. subst w4.
      intros [= _ <-]. simpl. rewrite lookup_insert_ne by done. by rewrite Hs2, Hs1. }
  apply localStorage_setItem_normal in H2. subst w4.
  intros H3. apply localStorage_setItem_throw in H3. subst w'. simpl.
  rewrite !lookup_insert_ne by done. by rewrite Hs2, Hs1.
Qed.

Lemma window_atob_frame s w (r : completion (list Z)) w' :
  window_atob s w = (r, w') -> w' = w.
Proof. unfold window_atob, ret, throw. case_match; by intros [= <- <-]. Qed.

Lemma subtle_importKey_frame fmt der alg ext us w r w' :
  subtle_importKey fmt der alg ext us w = (r, w') -> localStorage w' = localStorage w.
Proof.
  unfold subtle_importKey, bind, called, throw, ret. by_branches.
Qed.

Lemma subtle_encrypt_frame a k d w r w' :
  subtle_encrypt a k d w = (r, w') -> localStorage w' = localStorage w.
Proof.
  unfold subtle_encrypt, bind, called, throw, ret. by_branches.
Qed.

Lemma importPublicKey_frame pem w r w' :
  importPublicKey pem w = (r, w') -> localStorage w' = localStorage w.
Proof.
  unfold importPublicKey, bind.
  destruct (window_atob pem w) as [[a|e] w0] eqn:Ha; apply window_atob_frame in Ha; subst w0.
  - apply subtle_importKey_frame.
  - by intros [= <- <-].
Qed.

Lemma importPrivateKey_frame pem w r w' :
  importPrivateKey pem w = (r, w') -> localStorage w' = localStorage w.
Proof.
  unfold importPrivateKey, bind.
  destruct (window_atob pem w) as [[a|e] w0] eqn:Ha; apply window_atob_frame in Ha; subst w0.
  - apply subtle_importKey_frame.
  - by intros [= <- <-].
Qed.

Lemma fetchKeysFromLocalStorage_frame w r w' :
  fetchKeysFromLocalStorage w = (r, w') -> localStorage w' = localStorage w.
Proof.
  unfold fetchKeysFromLocalStorage, bind at 1, localStorage_getItem at 1.
  destruct (localStorage w !! "privateKeyBase64") as [sk|]; [|by intros [= <- <-]].
  unfold bind at 1, localStorage_getItem at 1.
  destruct (localStorage w !! "publicKeyBase64") as [pk|]; [|by intros [= <- <-]].
  unfold bind at 1, localStorage_getItem at 1. unfold bind at 1, Date_now at 1.
  destruct (js_lt _ _); [|by intros [= <- <-]].
  unfold bind.
  destruct (importPrivateKey sk w) as [[k|e] w0] eqn:Hi;
    apply importPrivateKey_frame in Hi; by intros [= <- <-].
Qed.

Lemma encryptMessage_frame pk msg w r w' :
  encryptMessage pk msg w = (r, w') -> localStorage w' = localStorage w.
Proof.
  unfold encryptMessage, bind.
  destruct (importPublicKey pk w) as [[k|e] w0] eqn:Hi; apply importPublicKey_frame in Hi.
  - intros He. apply subtle_encrypt_frame in He. congruence.
  - by intros [= <- <-].
Qed.

Lemma createKeys_frame w r w' :
  createKeys w = (r, w') -> localStorage w' = localStorage w.
Proof.
  unfold createKeys, subtle_generateKey, bind, called, throw, ret. by_branches.
Qed.

Lemma subtle_decrypt_frame a k d w r w' :
  subtle_decrypt a k d w = (r, w') -> localStorage w' = localStorage w.
Proof.
  unfold subtle_decrypt, bind, called, throw, ret. by_branches.
Qed.

Lemma decryptMessage_frame k c w r w' :
  decryptMessage k c w = (r, w') -> localStorage w' = localStorage w.
Proof.
  unfold decryptMessage, bind.
  destruct (subtle_decrypt "RSA-OAEP" k c w) as [[m|e] w0] eqn:Hd;
    apply subtle_decrypt_frame in Hd; by intros [= <- <-].
Qed.

Lemma transport_frame s w r w' :
  (encodeEncryptedMessageAsBase64 s w = (r, w') -> w' = w)
  /\ (decodeBase64EncryptedMessage s w = (r, w') -> w' = w).
Proof.
  split.
  - unfold encodeEncryptedMessageAsBase64, bind.
    destruct (ab2str s w) as [[t|e] w0] eqn:Ha; apply ab2str_frame in Ha; subst w0.
    + apply window_btoa_frame.
    + by intros [= <- <-].
  - unfold decodeBase64EncryptedMessage, bind.
    destruct (window_atob s w) as [[a|e] w0] eqn:Ha; apply window_atob_frame in Ha;
      subst w0; by intros [= <- <-].
Qed.

(** C6. A save whose [try] block completes has written exactly the three
    fields privateKeyBase64, publicKeyBase64 and ttl, the last holding the
    decimal digits of the clock reading plus 3600000; every other field of
    the store is as before. A save that fails leaves the ttl field as it
    was, and no other operation of the library writes to the store. *)
Theorem save_writes_three_fields keys w :
  (forall w',
     time_value (clock w) ->
     saveKeys_try keys w = (Normal tt, w') ->
     saveKeysToLocalStorage keys w = (Normal tt, w')
     /\ (exists kp sk pk w1 w2,
           keys = Some kp
           /\ exportPrivateKeyToBase64 (privateKey kp) w = (Normal sk, w1)
           /\ exportPublicKeyToBase64 (publicKey kp) w1 = (Normal pk, w2)
           /\ localStorage w'
              = <["ttl" := decimal (clock w + 3600000)]>
                  (<["publicKeyBase64" := pk]>
                     (<["privateKeyBase64" := sk]> (localStorage w))))
     /\ localStorage w' !! "ttl" = Some (Number_toString (Fin (clock w + 3600000)))
     /\ (forall key : string,
           key <> "privateKeyBase64" -> key <> "publicKeyBase64" -> key <> "ttl" ->
           localStorage w' !! key = localStorage w !! key))
  /\ (forall e w',
        saveKeys_try keys w = (Throw e, w') ->
        exists w'', saveKeysToLocalStorage keys w = (Normal tt, w'')
          /\ localStorage w'' !! "ttl" = localStorage w !! "ttl")
  /\ (forall r w', fetchKeysFromLocalStorage w = (r, w') -> localStorage w' = localStorage w)
  /\ (forall k r w', exportPrivateKeyToBase64 k w = (r, w') -> localStorage w' = localStorage w)
  /\ (forall k r w', exportPublicKeyToBase64 k w = (r, w') -> localStorage w' = localStorage w)
  /\ (forall pem r w', importPrivateKey pem w = (r, w') -> localStorage w' = localStorage w)
  /\ (forall pem r w', importPublicKey pem w = (r, w') -> localStorage w' = localStorage w)
  /\ (forall pk msg r w', encryptMessage pk msg w = (r, w') -> localStorage w' = localStorage w)
  /\ (forall k c r w', decryptMessage k c w = (r, w') -> localStorage w' = localStorage w)
  /\ (forall r w', createKeys w = (r, w') -> localStorage w' = localStorage w)
  /\ (forall c r w', encodeEncryptedMessageAsBase64 c w = (r, w') -> localStorage w' = localStorage w)
  /\ (forall t r w', decodeBase64EncryptedMessage t w = (r, w') -> localStorage w' = localStorage w).
Proof.
  split; [|split].
  - intros w' Hclock Htry.
    split; [unfold saveKeysToLocalStorage, try_catch; by rewrite Htry|].
    destruct (saveKeys_try_normal _ _ _ Hclock Htry)
      as (kp & sk & pk & w1 & w2 & -> & Hsk & Hpk & ->).
    split; [by exists kp, sk, pk, w1, w2|]. simpl. split.
    + apply lookup_insert_eq.
    + intros key H1 H2 H3. by rewrite !lookup_insert_ne.
  - intros e w' Htry.
    exists (with_console (console w' ++ [e]) w').
    split; [unfold saveKeysToLocalStorage, try_catch; by rewrite Htry|].
    simpl. by apply saveKeys_try_throw in Htry.
  - split; [apply fetchKeysFromLocalStorage_frame|].
    split; [intros k r w' Hx; by apply exportPrivateKeyToBase64_frame in Hx as [? _]|].
    split; [intros k r w' Hx; by apply exportPublicKeyToBase64_frame in Hx as [? _]|].
    split; [intros ?; apply importPrivateKey_frame|].
    split; [intros ?; apply importPublicKey_frame|].
    split; [intros ? ?; apply encryptMessage_frame|].
    split; [intros ? ?; apply decryptMessage_frame|].
    split; [apply createKeys_frame|].
    split; intros c r w' Hx; apply transport_frame in Hx; by subst.
Qed.

End Save.

(** ** Key codec and cipher engine *)

Section Cipher.
Context `{Platform}.
Implicit Types (w : World) (pem : list Z).

(** The two [importKey] calls of the library, by the outcome of parsing. *)
Lemma subtle_importKey_spki der w :
  subtle_importKey spki der RSA_OAEP_SHA256 true [encrypt] w
  = match parse_spki der with
    | Some m => (Normal (imported_public m),
                 with_call (CallImportKey spki der RSA_OAEP_SHA256 true [encrypt]) w)
    | None => (Throw (DOMException "DataError"),
               with_call (CallImportKey spki der RSA_OAEP_SHA256 true [encrypt]) w)
    end.
Proof.
  unfold subtle_importKey, bind, called. simpl.
  by destruct (parse_spki der).
Qed.

Lemma subtle_importKey_pkcs8 der w :
  subtle_importKey pkcs8 der RSA_OAEP_SHA256 true [decrypt] w
  = match parse_pkcs8 der with
    | Some m => (Normal (imported_private m),
                 with_call (CallImportKey pkcs8 der RSA_OAEP_SHA256 true [decrypt]) w)
    | None => (Throw (DOMException "DataError"),
               with_call (CallImportKey pkcs8 der RSA_OAEP_SHA256 true [decrypt]) w)
    end.
Proof.
  unfold subtle_importKey, bind, called. simpl.
  by destruct (parse_pkcs8 der).
Qed.

Lemma importPublicKey_normal pem w k w' :
  importPublicKey pem w = (Normal k, w') ->
  exists der m,
    forgiving_base64_decode pem = Some der /\ parse_spki (str2ab der) = Some m
    /\ k = imported_public m
    /\ w' = with_call (CallImportKey spki (str2ab der) RSA_OAEP_SHA256 true [encrypt]) w.
Proof.
  unfold importPublicKey, bind.
  destruct (window_atob pem w) as [[der|e] w0] eqn:Ha; [|discriminate].
  apply window_atob_normal in Ha as [Hd ->].
  rewrite subtle_importKey_spki.
  destruct (parse_spki (str2ab der)) as [m|] eqn:Hp; [|discriminate].
  intros [= <- <-]. by exists der, m.
Qed.

Lemma importPrivateKey_normal pem w k w' :
  importPrivateKey pem w = (Normal k, w') ->
  exists der m,
    forgiving_base64_decode pem = Some der /\ parse_pkcs8 (str2ab der) = Some m
    /\ k = imported_private m
    /\ w' = with_call (CallImportKey pkcs8 (str2ab der) RSA_OAEP_SHA256 true [decrypt]) w.
Proof.
  unfold importPrivateKey, bind.
  destruct (window_atob pem w) as [[der|e] w0] eqn:Ha; [|discriminate].
  apply window_atob_normal in Ha as [Hd ->].
  rewrite subtle_importKey_pkcs8.
  destruct (parse_pkcs8 (str2ab der)) as [m|] eqn:Hp; [|discriminate].
  intros [= <- <-]. by exists der, m.
Qed.

(** C7. A handle returned by [importPublicKey] allows encryption only, and
    one returned by [importPrivateKey] decryption only, both carrying the
    RSA-OAEP / SHA-256 parameters; and for the Base64 text of key bytes the
    provider parses, each import does return such a handle. *)
Theorem import_key_capabilities pem w :
  (forall k w', importPublicKey pem w = (Normal k, w') ->
     usages k = [encrypt] /\ type k = public /\ algorithm k = RSA_OAEP_SHA256)
  /\ (forall k w', importPrivateKey pem w = (Normal k, w') ->
     usages k = [decrypt] /\ type k = private /\ algorithm k = RSA_OAEP_SHA256)
  /\ (forall der m, is_bytes der -> pem = b64_encode der -> parse_spki der = Some m ->
     importPublicKey pem w
     = (Normal (imported_public m),
        with_call (CallImportKey spki der RSA_OAEP_SHA256 true [encrypt]) w))
  /\ (forall der m, is_bytes der -> pem = b64_encode der -> parse_pkcs8 der = Some m ->
     importPrivateKey pem w
     = (Normal (imported_private m),
        with_call (CallImportKey pkcs8 der RSA_OAEP_SHA256 true [decrypt]) w)).
Proof.
  split; [|split; [|split]].
  - intros k w' Hk. by apply importPublicKey_normal in Hk as (der & m & _ & _ & -> & _).
  - intros k w' Hk. by apply importPrivateKey_normal in Hk as (der & m & _ & _ & -> & _).
  - intros der m Hder -> Hm. unfold importPublicKey, bind.
    rewrite window_atob_encoded, str2ab_bytes by done.
    by rewrite subtle_importKey_spki, Hm.
  - intros der m Hder -> Hm. unfold importPrivateKey, bind.
    rewrite window_atob_encoded, str2ab_bytes by done.
    by rewrite subtle_importKey_pkcs8, Hm.
Qed.

(** C2 (as amended). [encryptMessage] has no length check of its own: once
    the public key is imported it always calls the provider's [encrypt]
    with the UTF-8 bytes of the message. With a 2048-bit key a message of
    more than 190 bytes fails with the provider's OperationError, raised by
    that call, and a message of at most 190 bytes is encrypted. *)
Theorem encrypt_bound_is_the_providers pem (msg : list Z) w k w1 :
  importPublicKey pem w = (Normal k, w1) ->
  modulus_bits (material k) = 2048 ->
  (exists r w2, encryptMessage pem msg w = (r, w2)
     /\ subtle_calls w2 = subtle_calls w1 ++ [CallEncrypt "RSA-OAEP" k (utf8_encode msg)])
  /\ (190 < Z.of_nat (length (utf8_encode msg)) ->
      encryptMessage pem msg w
      = (Throw (DOMException "OperationError"),
         with_call (CallEncrypt "RSA-OAEP" k (utf8_encode msg)) w1))
  /\ (Z.of_nat (length (utf8_encode msg)) <= 190 ->
      encryptMessage pem msg w
      = (Normal (rsaes_oaep (material k) (entropy w1) (utf8_encode msg)),
         with_entropy (S (entropy w1))
           (with_call (CallEncrypt "RSA-OAEP" k (utf8_encode msg)) w1))).
Proof.
  intros Hk Hbits.
  destruct (importPublicKey_normal _ _ _ _ Hk) as (der & m & _ & _ & Hkm & _).
  assert (Hmax : oaep_max_length k = 190).
  { unfold oaep_max_length. rewrite Hbits. subst k. reflexivity. }
  assert (Henc : encryptMessage pem msg w
    = if 190 <? Z.of_nat (length (utf8_encode msg))
      then (Throw (DOMException "OperationError"),
            with_call (CallEncrypt "RSA-OAEP" k (utf8_encode msg)) w1)
      else (Normal (rsaes_oaep (material k) (entropy w1) (utf8_encode msg)),
            with_entropy (S (entropy w1))
              (with_call (CallEncrypt "RSA-OAEP" k (utf8_encode msg)) w1))).
  { unfold encryptMessage, bind at 1. rewrite Hk.
    unfold subtle_encrypt, bind, called. rewrite Hmax. subst k. simpl.
    by destruct (190 <? _). }
  rewrite Henc. split; [|split].
  - destruct (190 <? _); eauto.
  - intros Hlen. by destruct (Z.ltb_spec 190 (Z.of_nat (length (utf8_encode msg)))); [|lia].
  - intros Hlen. by destruct (Z.ltb_spec 190 (Z.of_nat (length (utf8_encode msg)))); [lia|].
Qed.

End Cipher.

Lemma save_never_throws_witness :
  exists w', @saveKeysToLocalStorage demo_platform (Some sealed_keys)
               (empty_world demo_platform 1730000000000) = (Normal tt, w')
    /\ console w' = [DOMException "InvalidAccessError"]
    /\ localStorage w' = ∅.
Proof.
  refine (proj1 (proj2 (@save_never_throws demo_platform (Some sealed_keys)
            (empty_world demo_platform 1730000000000)))
            sealed_keys (DOMException "InvalidAccessError")
            (snd (@exportPrivateKeyToBase64 demo_platform (privateKey sealed_keys)
                    (empty_world demo_platform 1730000000000))) _ _).
  - reflexivity.
  - reflexivity.
Defined.

Lemma save_writes_three_fields_witness :
  time_value 1730000000000
  /\ localStorage (snd (@saveKeys_try demo_platform (Some demo_keys)
                          (empty_world demo_platform 1730000000000))) !! "ttl"
     = Some (Number_toString (Fin (1730000000000 + 3600000))).
Proof.
  assert (Ht : time_value 1730000000000) by (unfold time_value; simpl; lia).
  split; [exact Ht|].
  refine (proj1 (proj2 (proj2 (proj1 (@save_writes_three_fields demo_platform
            (Some demo_keys) (empty_world demo_platform 1730000000000))
            (snd (@saveKeys_try demo_platform (Some demo_keys)
                    (empty_world demo_platform 1730000000000))) Ht _)))).
  reflexivity.
Defined.

Lemma import_key_capabilities_witness :
  is_bytes [48; 1]
  /\ @importPublicKey demo_platform (b64_encode [48; 1]) (empty_world demo_platform 0)
     = (Normal (@imported_public demo_platform 2048),
        with_call (CallImportKey spki [48; 1] RSA_OAEP_SHA256 true [encrypt])
          (empty_world demo_platform 0)).
Proof.
  assert (Hb : is_bytes [48; 1]) by (repeat constructor; unfold is_byte; lia).
  split; [exact Hb|].
  refine (proj1 (proj2 (proj2 (@import_key_capabilities demo_platform
            (b64_encode [48; 1]) (empty_world demo_platform 0)))) [48; 1] 2048 Hb _ _).
  - reflexivity.
  - reflexivity.
Defined.

Lemma encrypt_bound_is_the_providers_witness :
  Z.of_nat (length (utf8_encode (replicate 190 97))) <= 190
  /\ @encryptMessage demo_platform (lit "MAE=") (replicate 190 97) (empty_world demo_platform 0)
     = (Normal (@rsaes_oaep demo_platform 2048 0%nat (utf8_encode (replicate 190 97))),
        with_entropy 1
          (with_call (CallEncrypt "RSA-OAEP" (@imported_public demo_platform 2048)
                        (utf8_encode (replicate 190 97))) demo_imported_world)).
Proof.
  assert (Hl : Z.of_nat (length (utf8_encode (replicate 190 97))) <= 190)
    by (vm_compute; discriminate).
  split; [exact Hl|].
  refine (proj2 (proj2 (@encrypt_bound_is_the_providers demo_platform (lit "MAE=")
            (replicate 190 97) (empty_world demo_platform 0)
            (@imported_public demo_platform 2048) demo_imported_world _ _)) Hl).
  - reflexivity.
  - reflexivity.
Defined.

(** A message of 191 bytes does reach the provider: the exception is the
    one [encrypt] raises, and the call is on record with all 191 bytes. *)
Lemma encrypt_oversize_reaches_provider :
  length (utf8_encode (replicate 191 97)) = 191%nat
  /\ @encryptMessage demo_platform (lit "MAE=") (replicate 191 97) (empty_world demo_platform 0)
     = (Throw (DOMException "OperationError"),
        with_call (CallEncrypt "RSA-OAEP" (@imported_public demo_platform 2048)
                     (replicate 191 97)) demo_imported_world).
Proof. split; reflexivity. Qed.

(** * Further properties of the library *)

(** ** Codec and transport text *)

(** X1. Text to bytes and back: for a string [s] no longer than the
    engine takes arguments in one call, [ab2str (str2ab s)] returns [s]
    with every code unit replaced by its low byte, so it returns [s] itself
    exactly when every code unit of [s] is below 256; for a longer string
    it throws the engine's RangeError. *)
Theorem text_round_trip_iff_latin1 `{Platform} (s : list Z) (w : World) :
  (Z.of_nat (length s) <= max_arguments ->
   ab2str (str2ab s) w = (Normal (map (fun c => c mod 256) s), w)
   /\ (ab2str (str2ab s) w = (Normal s, w) <-> is_bytes s))
  /\ (max_arguments < Z.of_nat (length s) ->
      ab2str (str2ab s) w = (Throw CallRangeError, w)).
Proof.
  assert (Hlen : length (str2ab s) = length s) by (rewrite str2ab_map; apply length_map).
  split.
  - intros Hfit.
    assert (Hmap : ab2str (str2ab s) w = (Normal (map (fun c => c mod 256) s), w)).
    { unfold ab2str. rewrite Hlen.
      destruct (Z.leb_spec (Z.of_nat (length s)) max_arguments); [|lia].
      unfold ret. f_equal. f_equal. rewrite str2ab_map. unfold fromCharCode.
      rewrite map_map. apply map_ext. intros c. unfold ToUint16, ToUint8.
      pose proof (Z.mod_pos_bound c 256). apply Z.mod_small. lia. }
    split; [exact Hmap|]. rewrite Hmap. clear. split.
    + intros [= Heq]. induction s as [|c s IH]; simpl in *; [constructor|].
      injection Heq as Hc Hs. constructor; [|by apply IH].
      unfold is_byte. pose proof (Z.mod_pos_bound c 256). lia.
    + intros Hs. f_equal. f_equal.
      induction Hs as [|c s Hc _ IH]; simpl; [done|].
      unfold is_byte in Hc. rewrite IH. f_equal. apply Z.mod_small. lia.
  - intros Hlong. apply ab2str_too_long. by rewrite Hlen.
Qed.

Lemma text_round_trip_iff_latin1_witness :
  @ab2str demo_platform (str2ab [65; 8364; 322]) (empty_world demo_platform 0)
  = (Normal (map (fun c => c mod 256) [65; 8364; 322]), empty_world demo_platform 0).
Proof.
  refine (proj1 (proj1 (@text_round_trip_iff_latin1 demo_platform [65; 8364; 322]
                          (empty_world demo_platform 0)) _)).
  simpl. lia.
Defined.

Lemma list_ind4 {A} (P : list A -> Prop) :
  P [] -> (forall a, P [a]) -> (forall a b, P [a; b]) -> (forall a b c, P [a; b; c]) ->
  (forall a b c d rest, P rest -> P (a :: b :: c :: d :: rest)) ->
  forall l, P l.
Proof.
  intros H0 H1 H2 H3 H4 l.
  assert (G : P l /\ (forall a, P (a :: l)) /\ (forall a b, P (a :: b :: l))
              /\ (forall a b c, P (a :: b :: c :: l))).
  { induction l as [|x l (IH0 & IH1 & IH2 & IH3)]; [by auto|].
    split; [apply IH1|]. split; [intros; apply IH2|]. split; [intros; apply IH3|].
    intros a b c. by apply H4. }
  apply G.
Qed.

Lemma b64_value_range c v : b64_value c = Some v -> is_sextet v.
Proof.
  unfold b64_value, is_sextet.
  repeat case_match; intros [= <-]; lia.
Qed.

Lemma b64_decode_groups_bytes vs : Forall is_sextet vs -> is_bytes (b64_decode_groups vs).
Proof.
  unfold is_bytes.
  induction vs as [|a|a b|a b c|a b c d rest IH] using list_ind4; intros Hvs.
  - constructor.
  - constructor.
  - inversion_clear Hvs as [|? ? Ha Hvs']. inversion_clear Hvs' as [|? ? Hb _].
    unfold is_sextet in *. simpl.
    repeat constructor; unfold is_byte; Z.div_mod_to_equations; lia.
  - inversion_clear Hvs as [|? ? Ha Hvs']. inversion_clear Hvs' as [|? ? Hb Hvs''].
    inversion_clear Hvs'' as [|? ? Hc _]. unfold is_sextet in *. simpl.
    repeat constructor; unfold is_byte; Z.div_mod_to_equations; lia.
  - inversion_clear Hvs as [|? ? Ha Hvs']. inversion_clear Hvs' as [|? ? Hb Hvs''].
    inversion_clear Hvs'' as [|? ? Hc Hvs3]. inversion_clear Hvs3 as [|? ? Hd Hrest].
    unfold is_sextet in *.
    change (b64_decode_groups (a :: b :: c :: d :: rest)) with
      (a * 4 + b / 16 :: (b mod 16) * 16 + c / 4 :: (c mod 4) * 64 + d
         :: b64_decode_groups rest).
    repeat (constructor; [unfold is_byte; Z.div_mod_to_equations; lia|]).
    by apply IH.
Qed.

(** Whatever [atob] accepts, it decodes to bytes. *)
Lemma forgiving_base64_decode_bytes t bs :
  forgiving_base64_decode t = Some bs -> is_bytes bs.
Proof.
  unfold forgiving_base64_decode.
  set (data := if (_ =? 0)%nat then _ else _).
  destruct (length data mod 4 =? 1)%nat; [discriminate|].
  destruct (mapM b64_value data) as [vs|] eqn:Hvs; [|discriminate].
  simpl. intros [= <-]. apply b64_decode_groups_bytes.
  apply mapM_Some_1 in Hvs. clear -Hvs.
  induction Hvs as [|c v cs vs Hc _ IH]; constructor; [|done].
  by apply b64_value_range in Hc.
Qed.

(** X2. Whenever [decodeBase64EncryptedMessage] returns, the buffer holds
    exactly the characters [atob] produced, each a byte: the wrap of
    [str2ab] never alters transport text. The canonical Base64 text of the
    buffer decodes to the buffer again, and it is what
    [encodeEncryptedMessageAsBase64] returns for the buffer when the
    buffer is no longer than the engine takes arguments in one call. *)
Theorem decoded_message_is_exact `{Platform} (t c : list Z) (w w' : World) :
  decodeBase64EncryptedMessage t w = (Normal c, w') ->
  forgiving_base64_decode t = Some c
  /\ is_bytes c
  /\ w' = w
  /\ decodeBase64EncryptedMessage (b64_encode c) w = (Normal c, w)
  /\ (Z.of_nat (length c) <= max_arguments ->
      encodeEncryptedMessageAsBase64 c w = (Normal (b64_encode c), w)).
Proof.
  unfold decodeBase64EncryptedMessage at 1, bind.
  destruct (window_atob t w) as [[s|e] w0] eqn:Ha; [|discriminate].
  apply window_atob_normal in Ha as [Hd ->]. unfold ret. intros [= <- <-].
  pose proof (forgiving_base64_decode_bytes _ _ Hd) as Hs.
  rewrite str2ab_bytes by done. repeat split; [done..| |].
  - unfold decodeBase64EncryptedMessage, bind. rewrite window_atob_encoded by done.
    unfold ret. by rewrite str2ab_bytes.
  - intros Hlen. unfold encodeEncryptedMessageAsBase64, bind.
    rewrite ab2str_bytes by done. by apply window_btoa_bytes.
Qed.

Lemma decoded_message_is_exact_witness :
  forgiving_base64_decode (lit " TWE") = Some (lit "Ma")
  /\ is_bytes (lit "Ma")
  /\ empty_world demo_platform 0 = empty_world demo_platform 0
  /\ @decodeBase64EncryptedMessage demo_platform (b64_encode (lit "Ma"))
       (empty_world demo_platform 0)
     = (Normal (lit "Ma"), empty_world demo_platform 0)
  /\ (Z.of_nat (length (lit "Ma")) <= @max_arguments demo_platform ->
      @encodeEncryptedMessageAsBase64 demo_platform (lit "Ma") (empty_world demo_platform 0)
      = (Normal (b64_encode (lit "Ma")), empty_world demo_platform 0)).
Proof.
  refine (@decoded_message_is_exact demo_platform (lit " TWE") (lit "Ma")
            (empty_world demo_platform 0) (empty_world demo_platform 0) _).
  reflexivity.
Defined.

Lemma filter_filter_id {A} (f : A -> bool) l :
  List.filter f (List.filter f l) = List.filter f l.
Proof.
  induction l as [|x l IH]; simpl; [done|].
  destruct (f x) eqn:Hx; simpl; [by rewrite Hx, IH|done].
Qed.

(** [atob] reads a text as it reads the text without its white space. *)
Lemma forgiving_base64_decode_unspaced t :
  forgiving_base64_decode t
  = forgiving_base64_decode (List.filter (fun c => negb (is_ascii_whitespace c)) t).
Proof. unfold forgiving_base64_decode. by rewrite filter_filter_id. Qed.

(** An encoding without its '=' still decodes to the bytes. *)
Lemma base64_unpadded bs :
  is_bytes bs -> forgiving_base64_decode (map b64_char (sextets bs)) = Some bs.
Proof.
  intros Hb. pose proof (sextets_range bs Hb) as Hs.
  destruct (b64_chars_plain _ Hs) as (Hws & Hne & Hval).
  unfold forgiving_base64_decode. rewrite filter_keeps_all by done.
  assert (Hstrip :
    (if (length (map b64_char (sextets bs)) mod 4 =? 0)%nat
     then strip_trailing_eq (map b64_char (sextets bs))
     else map b64_char (sextets bs)) = map b64_char (sextets bs)).
  { destruct (_ =? 0)%nat; [|done].
    rewrite <- (app_nil_r (map b64_char (sextets bs))) at 1.
    change (@nil Z) with (replicate 0 61). apply strip_trailing_eq_padding; [done|lia]. }
  rewrite Hstrip.
  assert (Hlen1 : (length (map b64_char (sextets bs)) mod 4 =? 1)%nat = false).
  { rewrite length_map. apply Nat.eqb_neq.
    destruct (sextets_shape bs) as [k [[-> _]|[[-> _]|[-> _]]]].
    - rewrite Nat.mul_comm, Nat.Div0.mod_mul. lia.
    - rewrite Nat.add_comm, Nat.mul_comm, Nat.Div0.mod_add. simpl. lia.
    - rewrite Nat.add_comm, Nat.mul_comm, Nat.Div0.mod_add. simpl. lia. }
  rewrite Hlen1, Hval. simpl. by rewrite b64_decode_sextets.
Qed.

(** X3. The transport text of a buffer is read back whatever its layout:
    [decodeBase64EncryptedMessage] returns [c] from the Base64 characters of
    [c] with ASCII white space inserted anywhere among them, and with the
    closing '=' present or left off. *)
Theorem decode_tolerates_layout `{Platform} (c t : list Z) (k : nat) (w : World) :
  is_bytes c ->
  List.filter (fun x => negb (is_ascii_whitespace x)) t
  = map b64_char (sextets c) ++ replicate k 61 ->
  k = 0%nat \/ k = b64_padding c ->
  decodeBase64EncryptedMessage t w = (Normal c, w).
Proof.
  intros Hc Ht Hk.
  assert (Hd : forgiving_base64_decode t = Some c).
  { rewrite forgiving_base64_decode_unspaced, Ht. destruct Hk as [->| ->].
    - simpl. rewrite app_nil_r. by apply base64_unpadded.
    - by apply base64_round_trip. }
  unfold decodeBase64EncryptedMessage, bind, window_atob. rewrite Hd.
  unfold ret. by rewrite str2ab_bytes.
Qed.

Lemma decode_tolerates_layout_witness :
  @decodeBase64EncryptedMessage demo_platform [84; 87; 10; 32; 69]
    (empty_world demo_platform 0)
  = (Normal (lit "Ma"), empty_world demo_platform 0).
Proof.
  refine (@decode_tolerates_layout demo_platform (lit "Ma") [84; 87; 10; 32; 69] 0%nat
            (empty_world demo_platform 0) _ _ _).
  - repeat constructor; unfold is_byte; simpl; lia.
  - reflexivity.
  - left. reflexivity.
Defined.

(** ** Key codec *)

Section KeyText.
Context `{Platform}.
Implicit Types (w : World) (k : CryptoKey) (pem : list Z).

Lemma exportPublicKeyToBase64_extractable k w :
  type k = public -> extractable k = true -> is_bytes (encode_spki (material k)) ->
  Z.of_nat (length (encode_spki (material k))) <= max_arguments ->
  exportPublicKeyToBase64 (Some k) w
  = (Normal (b64_encode (encode_spki (material k))),
     with_call (CallExportKey spki (Some k)) w).
Proof.
  intros Ht He Hb Hl. unfold exportPublicKeyToBase64, subtle_exportKey, bind, called.
  rewrite He, Ht. simpl. unfold ret. rewrite ab2str_bytes by done.
  by apply window_btoa_bytes.
Qed.

Lemma exportPrivateKeyToBase64_extractable k w :
  type k = private -> extractable k = true -> is_bytes (encode_pkcs8 (material k)) ->
  Z.of_nat (length (encode_pkcs8 (material k))) <= max_arguments ->
  exportPrivateKeyToBase64 (Some k) w
  = (Normal (b64_encode (encode_pkcs8 (material k))),
     with_call (CallExportKey pkcs8 (Some k)) w).
Proof.
  intros Ht He Hb Hl. unfold exportPrivateKeyToBase64, subtle_exportKey, bind, called.
  rewrite He, Ht. simpl. unfold ret. rewrite ab2str_bytes by done.
  by apply window_btoa_bytes.
Qed.

Lemma importPublicKey_encoded der m w :
  is_bytes der -> parse_spki der = Some m ->
  importPublicKey (b64_encode der) w
  = (Normal (imported_public m),
     with_call (CallImportKey spki der RSA_OAEP_SHA256 true [encrypt]) w).
Proof.
  intros Hder Hm. unfold importPublicKey, bind.
  rewrite window_atob_encoded, str2ab_bytes by done.
  by rewrite subtle_importKey_spki, Hm.
Qed.

Lemma importPrivateKey_encoded der m w :
  is_bytes der -> parse_pkcs8 der = Some m ->
  importPrivateKey (b64_encode der) w
  = (Normal (imported_private m),
     with_call (CallImportKey pkcs8 der RSA_OAEP_SHA256 true [decrypt]) w).
Proof.
  intros Hder Hm. unfold importPrivateKey, bind.
  rewrite window_atob_encoded, str2ab_bytes by done.
  by rewrite subtle_importKey_pkcs8, Hm.
Qed.

(** X4. Key text round trip: the text exported from an extractable public
    key, imported again, gives a handle on the same key material, and so
    does the text of an extractable private key; the new handle has the
    fixed usage and RSA-OAEP / SHA-256 parameters of the import whatever
    usages and hash the exported handle had. This holds for a provider
    whose export of the key is bytes that it parses back to the key, and
    for an export no longer than the engine takes arguments in one call. *)
Theorem key_text_round_trip k w :
  (type k = public -> extractable k = true ->
   is_bytes (encode_spki (material k)) ->
   Z.of_nat (length (encode_spki (material k))) <= max_arguments ->
   parse_spki (encode_spki (material k)) = Some (material k) ->
   (let* pem := exportPublicKeyToBase64 (Some k) in importPublicKey pem) w
   = (Normal (imported_public (material k)),
      with_call (CallImportKey spki (encode_spki (material k)) RSA_OAEP_SHA256 true [encrypt])
        (with_call (CallExportKey spki (Some k)) w)))
  /\ (type k = private -> extractable k = true ->
      is_bytes (encode_pkcs8 (material k)) ->
      Z.of_nat (length (encode_pkcs8 (material k))) <= max_arguments ->
      parse_pkcs8 (encode_pkcs8 (material k)) = Some (material k) ->
      (let* pem := exportPrivateKeyToBase64 (Some k) in importPrivateKey pem) w
      = (Normal (imported_private (material k)),
         with_call (CallImportKey pkcs8 (encode_pkcs8 (material k)) RSA_OAEP_SHA256 true [decrypt])
           (with_call (CallExportKey pkcs8 (Some k)) w))).
Proof.
  split; intros Ht He Hb Hl Hp; unfold bind.
  - rewrite exportPublicKeyToBase64_extractable by done.
    by apply importPublicKey_encoded.
  - rewrite exportPrivateKeyToBase64_extractable by done.
    by apply importPrivateKey_encoded.
Qed.

(** The outcome of [encryptMessage] once the key is imported. *)
Lemma encryptMessage_imported pem msg w m w1 :
  importPublicKey pem w = (Normal (imported_public m), w1) ->
  encryptMessage pem msg w
  = if (modulus_bits m + 7) / 8 - 66 <? Z.of_nat (length (utf8_encode msg))
    then (Throw (DOMException "OperationError"),
          with_call (CallEncrypt "RSA-OAEP" (imported_public m) (utf8_encode msg)) w1)
    else (Normal (rsaes_oaep m (entropy w1) (utf8_encode msg)),
          with_entropy (S (entropy w1))
            (with_call (CallEncrypt "RSA-OAEP" (imported_public m) (utf8_encode msg)) w1)).
Proof.
  intros Hk. unfold encryptMessage, bind at 1. rewrite Hk.
  unfold subtle_encrypt, bind, called, oaep_max_length. simpl.
  replace ((modulus_bits m + 7) / 8 - 2 * 32 - 2) with ((modulus_bits m + 7) / 8 - 66) by lia.
  by destruct (_ <? _).
Qed.

(** X5. A key text that cannot be imported stops [encryptMessage] before
    the message reaches the provider: text that is not Base64 throws
    InvalidCharacterError with no provider call at all, and Base64 text the
    provider does not parse as a public key throws DataError after the
    single [importKey] call; [encrypt] is not called in either case. *)
Theorem encrypt_stops_on_bad_key_text pem (msg : list Z) w :
  (forgiving_base64_decode pem = None ->
   encryptMessage pem msg w = (Throw (DOMException "InvalidCharacterError"), w))
  /\ (forall der,
        forgiving_base64_decode pem = Some der -> parse_spki der = None ->
        encryptMessage pem msg w
        = (Throw (DOMException "DataError"),
           with_call (CallImportKey spki der RSA_OAEP_SHA256 true [encrypt]) w)).
Proof.
  split.
  - intros Hd. unfold encryptMessage, importPublicKey, bind, window_atob.
    by rewrite Hd.
  - intros der Hd Hp. unfold encryptMessage, importPublicKey, bind, window_atob.
    rewrite Hd. unfold ret.
    rewrite (str2ab_bytes der) by by eapply forgiving_base64_decode_bytes.
    by rewrite subtle_importKey_spki, Hp.
Qed.

End KeyText.

(** ** Message size *)

(** A code unit takes one to three bytes of UTF-8 (a surrogate pair, four
    bytes for its two code units). *)
Lemma utf8_encode_length s :
  (length s <= length (utf8_encode s) <= 3 * length s)%nat.
Proof.
  assert (G : (length s <= length (utf8_encode s) <= 3 * length s)%nat
              /\ forall c, (length (c :: s) <= length (utf8_encode (c :: s))
                            <= 3 * length (c :: s))%nat).
  { induction s as [|x l [IH0 IH1]].
    - split; [simpl; lia|]. intros c. simpl. repeat case_match; simpl; lia.
    - split; [apply IH1|]. intros c. specialize (IH1 x).
      change (utf8_encode (c :: x :: l)) with
        (if c <? 128 then c :: utf8_encode (x :: l)
         else if c <? 2048 then 192 + c / 64 :: 128 + c mod 64 :: utf8_encode (x :: l)
         else if (55296 <=? c) && (c <=? 56319) then
           if (56320 <=? x) && (x <=? 57343) then
             let cp := 65536 + (c - 55296) * 1024 + (x - 56320) in
             240 + cp / 262144 :: 128 + (cp / 4096) mod 64
               :: 128 + (cp / 64) mod 64 :: 128 + cp mod 64 :: utf8_encode l
           else 239 :: 191 :: 189 :: utf8_encode (x :: l)
         else if (56320 <=? c) && (c <=? 57343) then 239 :: 191 :: 189 :: utf8_encode (x :: l)
         else 224 + c / 4096 :: 128 + (c / 64) mod 64 :: 128 + c mod 64
                :: utf8_encode (x :: l)).
      set (e1 := utf8_encode (x :: l)) in *. set (e0 := utf8_encode l) in *.
      set (n := length l) in *.
      assert (Hn : length (x :: l) = S n) by done. rewrite Hn in IH1.
      assert (Hn' : length (c :: x :: l) = S (S n)) by done. rewrite Hn'.
      destruct (c <? 128), (c <? 2048), ((55296 <=? c) && (c <=? 56319)),
        ((56320 <=? x) && (x <=? 57343)), ((56320 <=? c) && (c <=? 57343));
        cbv zeta; rewrite ?length_cons; lia. }
  apply G.
Qed.

(** X6. Message size by length: with an imported 2048-bit key,
    [encryptMessage] accepts every message of at most 63 UTF-16 code
    units and refuses, with the provider's OperationError, every message of
    more than 190, whatever the characters are. *)
Theorem message_size_by_length `{Platform} pem (msg : list Z) (w w1 : World)
    (k : CryptoKey) :
  importPublicKey pem w = (Normal k, w1) ->
  modulus_bits (material k) = 2048 ->
  ((length msg <= 63)%nat ->
   encryptMessage pem msg w
   = (Normal (rsaes_oaep (material k) (entropy w1) (utf8_encode msg)),
      with_entropy (S (entropy w1))
        (with_call (CallEncrypt "RSA-OAEP" k (utf8_encode msg)) w1)))
  /\ ((190 < length msg)%nat ->
      encryptMessage pem msg w
      = (Throw (DOMException "OperationError"),
         with_call (CallEncrypt "RSA-OAEP" k (utf8_encode msg)) w1)).
Proof.
  intros Hk Hbits.
  destruct (importPublicKey_normal _ _ _ _ Hk) as (der & m & _ & _ & -> & _).
  simpl in Hbits. rewrite (encryptMessage_imported _ msg _ _ _ Hk), Hbits.
  change ((2048 + 7) / 8 - 66) with 190.
  pose proof (utf8_encode_length msg) as Hlen. split; intros Hmsg.
  - destruct (Z.ltb_spec 190 (Z.of_nat (length (utf8_encode msg)))); [lia|done].
  - destruct (Z.ltb_spec 190 (Z.of_nat (length (utf8_encode msg)))); [done|lia].
Qed.

(** ** Key store *)

Section StoreMore.
Context `{Platform}.
Implicit Types (w : World) (kp : CryptoKeyPair).

Lemma exportPrivateKeyToBase64_normal ko w sk w1 :
  exportPrivateKeyToBase64 ko w = (Normal sk, w1) ->
  exists k, ko = Some k /\ type k = private /\ extractable k = true
    /\ sk = b64_encode (fromCharCode (encode_pkcs8 (material k))).
Proof.
  unfold exportPrivateKeyToBase64, subtle_exportKey, bind, called.
  destruct ko as [k|]; simpl; [|by intros [=]].
  destruct (extractable k) eqn:He; simpl; [|by intros [=]].
  destruct (type k) eqn:Ht; simpl; [by intros [=]|]. unfold ret.
  destruct (ab2str _ _) as [[s|e] w0] eqn:Hs; [|by intros [=]].
  apply ab2str_normal in Hs as (-> & -> & _). unfold window_btoa.
  destruct (is_latin1 _); simpl; [|by intros [=]]. intros [= <- <-]. by exists k.
Qed.

Lemma js_lt_later t t' x : t <= t' -> js_lt (Fin t) x = false -> js_lt (Fin t') x = false.
Proof.
  intros Ht. destruct x as [|e| |]; simpl; [done| |done|done].
  intros Hlt. apply Z.ltb_ge in Hlt. apply Z.ltb_ge. lia.
Qed.

(** X7. The record a completed save leaves expires one hour after the
    clock reading of the save: a later load reports it expired exactly from
    that instant on. *)
Theorem saved_record_expires_after_an_hour (keys : option CryptoKeyPair) w w' w2 :
  time_value (clock w) ->
  saveKeys_try keys w = (Normal tt, w') ->
  localStorage w2 = localStorage w' ->
  fst (fetchKeysFromLocalStorage w2) = Throw (Error "keys expired")
  <-> clock w + 3600000 <= clock w2.
Proof.
  intros Hclock Htry Hstore.
  destruct (saveKeys_try_normal _ _ _ Hclock Htry)
    as (kp & sk & pk & w1 & w3 & -> & _ & _ & ->).
  simpl in Hstore.
  assert (Hsk : localStorage w2 !! "privateKeyBase64" = Some sk).
  { rewrite Hstore, !lookup_insert_ne by done. apply lookup_insert_eq. }
  assert (Hpk : localStorage w2 !! "publicKeyBase64" = Some pk).
  { rewrite Hstore, lookup_insert_ne by done. apply lookup_insert_eq. }
  assert (Httl : parseInt (ToString_nullable (localStorage w2 !! "ttl"))
                 = Fin (clock w + 3600000)).
  { rewrite Hstore, lookup_insert_eq. simpl. apply parseInt_decimal.
    unfold time_value in Hclock. change (2 ^ 53) with 9007199254740992. lia. }
  rewrite (fetch_present w2 sk pk Hsk Hpk), Httl. simpl js_lt.
  destruct (Z.ltb_spec (clock w2) (clock w + 3600000)) as [Hlt|Hge].
  - split; [|lia]. unfold bind.
    destruct (importPrivateKey sk w2) as [[k|e] w4] eqn:Hi; simpl.
    + unfold ret. discriminate.
    + apply importPrivateKey_throws in Hi as [n ->]. discriminate.
  - split; [lia|done].
Qed.

(** X8. What is saved is what is loaded: after a completed save of a pair
    whose private key the provider exports as bytes that it parses back, a
    load made before the hour has passed returns a decrypt-only handle on
    that same private key material together with the public-key text the
    save stored. *)
Theorem saved_keys_load_back kp (ksk : CryptoKey) w w' w2 :
  time_value (clock w) ->
  saveKeys_try (Some kp) w = (Normal tt, w') ->
  privateKey kp = Some ksk ->
  is_bytes (encode_pkcs8 (material ksk)) ->
  parse_pkcs8 (encode_pkcs8 (material ksk)) = Some (material ksk) ->
  localStorage w2 = localStorage w' ->
  clock w2 < clock w + 3600000 ->
  exists pk,
    localStorage w' !! "publicKeyBase64" = Some pk
    /\ fetchKeysFromLocalStorage w2
       = (Normal {| fetched_privateKey := imported_private (material ksk);
                    fetched_publicKey := pk |},
          with_call (CallImportKey pkcs8 (encode_pkcs8 (material ksk))
                       RSA_OAEP_SHA256 true [decrypt]) w2).
Proof.
  intros Hclock Htry Hpriv Hbytes Hparse Hstore Hnow.
  destruct (saveKeys_try_normal _ _ _ Hclock Htry)
    as (kp' & sk & pk & w1 & w3 & [= <-] & Hsk & _ & ->).
  destruct (exportPrivateKeyToBase64_normal _ _ _ _ Hsk) as (k & Hk & _ & _ & ->).
  rewrite Hpriv in Hk. injection Hk as <-.
  simpl in Hstore. rewrite (fromCharCode_bytes _ Hbytes) in *. exists pk. split.
  { simpl. rewrite lookup_insert_ne by done. apply lookup_insert_eq. }
  assert (Hsk2 : localStorage w2 !! "privateKeyBase64"
                 = Some (b64_encode (encode_pkcs8 (material ksk)))).
  { rewrite Hstore, !lookup_insert_ne by done. apply lookup_insert_eq. }
  assert (Hpk2 : localStorage w2 !! "publicKeyBase64" = Some pk).
  { rewrite Hstore, lookup_insert_ne by done. apply lookup_insert_eq. }
  assert (Httl : parseInt (ToString_nullable (localStorage w2 !! "ttl"))
                 = Fin (clock w + 3600000)).
  { rewrite Hstore, lookup_insert_eq. simpl. apply parseInt_decimal.
    unfold time_value in Hclock. change (2 ^ 53) with 9007199254740992. lia. }
  rewrite (fetch_present w2 _ pk Hsk2 Hpk2), Httl. simpl js_lt.
  destruct (Z.ltb_spec (clock w2) (clock w + 3600000)); [|lia].
  unfold bind. by rewrite (importPrivateKey_encoded _ _ _ Hbytes Hparse).
Qed.

(** X9. A save is not all-or-nothing: when the store refuses the second
    write, the new private key stays written beside the public key and ttl
    of before; when it refuses the third, both new keys stay beside the ttl
    of before. Either way the refusal is logged and the save returns. *)
Theorem save_is_not_atomic kp w w1 w2 (sk pk : list Z) :
  exportPrivateKeyToBase64 (privateKey kp) w = (Normal sk, w1) ->
  exportPublicKeyToBase64 (publicKey kp) w1 = (Normal pk, w2) ->
  storage_quota (<["privateKeyBase64" := sk]> (localStorage w)) = true ->
  (storage_quota (<["publicKeyBase64" := pk]>
                    (<["privateKeyBase64" := sk]> (localStorage w))) = false ->
   exists w', saveKeysToLocalStorage (Some kp) w = (Normal tt, w')
     /\ localStorage w' = <["privateKeyBase64" := sk]> (localStorage w)
     /\ console w' = console w ++ [DOMException "QuotaExceededError"])
  /\ (storage_quota (<["publicKeyBase64" := pk]>
                       (<["privateKeyBase64" := sk]> (localStorage w))) = true ->
      storage_quota (<["ttl" := Number_toString (js_add (Fin (clock w)) (Fin (3600 * 1000)))]>
                       (<["publicKeyBase64" := pk]>
                          (<["privateKeyBase64" := sk]> (localStorage w)))) = false ->
      exists w', saveKeysToLocalStorage (Some kp) w = (Normal tt, w')
        /\ localStorage w'
           = <["publicKeyBase64" := pk]> (<["privateKeyBase64" := sk]> (localStorage w))
        /\ localStorage w' !! "ttl" = localStorage w !! "ttl"
        /\ console w' = console w ++ [DOMException "QuotaExceededError"]).
Proof.
  intros Hsk Hpk Hq1.
  destruct (exportPrivateKeyToBase64_frame _ _ _ _ Hsk) as (Hs1 & Hc1 & Ht1).
  destruct (exportPublicKeyToBase64_frame _ _ _ _ Hpk) as (Hs2 & Hc2 & Ht2).
  assert (Hstart : saveKeysToLocalStorage (Some kp) w
    = try_catch
        (let* _ := localStorage_setItem "privateKeyBase64" sk in
         let* _ := localStorage_setItem "publicKeyBase64" pk in
         localStorage_setItem "ttl"
           (Number_toString (js_add (Fin (clock w)) (Fin (3600 * 1000)))))
        (fun e => console_error e) w2).
  { unfold saveKeysToLocalStorage, try_catch, saveKeys_try, bind at 1.
    unfold destructure_keys at 1, ret at 1, bind at 1. simpl fst. rewrite Hsk.
    unfold bind at 1. simpl snd. rewrite Hpk.
    unfold bind at 1, Date_now at 1. by rewrite Ht2, Ht1. }
  rewrite Hstart. unfold try_catch, bind, localStorage_setItem.
  rewrite Hs2, Hs1, Hq1. simpl. split.
  - intros Hq2. rewrite Hq2. eexists. split; [done|]. simpl.
    by rewrite Hc2, Hc1.
  - intros Hq2 Hq3. rewrite Hq2. simpl. rewrite Hq3. eexists. split; [done|]. simpl.
    rewrite !lookup_insert_ne by done. by rewrite Hc2, Hc1.
Qed.

(** X10. A second save replaces the record of the first entirely: the
    store after it is the store before the first save with the three fields
    of the second, which are the texts the second save's own exports of its
    private and its public key returned and an expiry counted from the
    clock of the second save. *)
Theorem save_replaces_previous (keys1 keys2 : option CryptoKeyPair) wa wa' wb wb' :
  time_value (clock wa) -> time_value (clock wb) ->
  saveKeys_try keys1 wa = (Normal tt, wa') ->
  localStorage wb = localStorage wa' ->
  saveKeys_try keys2 wb = (Normal tt, wb') ->
  exists kp2 sk2 pk2 w1 w2,
    keys2 = Some kp2
    /\ exportPrivateKeyToBase64 (privateKey kp2) wb = (Normal sk2, w1)
    /\ exportPublicKeyToBase64 (publicKey kp2) w1 = (Normal pk2, w2)
    /\ localStorage wb'
       = <["ttl" := decimal (clock wb + 3600000)]>
           (<["publicKeyBase64" := pk2]>
              (<["privateKeyBase64" := sk2]> (localStorage wa))).
Proof.
  intros Hta Htb Ha Hstore Hb.
  destruct (saveKeys_try_normal _ _ _ Hta Ha)
    as (kp1 & sk1 & pk1 & w1 & w3 & _ & _ & _ & ->).
  destruct (saveKeys_try_normal _ _ _ Htb Hb)
    as (kp2 & sk2 & pk2 & w4 & w5 & -> & Hsk2 & Hpk2 & ->).
  exists kp2, sk2, pk2, w4, w5. repeat split; [done..|]. simpl in *. rewrite Hstore.
  apply map_eq. intros key.
  destruct (decide (key = "ttl")) as [->|Hn1]; [by rewrite !lookup_insert_eq|].
  destruct (decide (key = "publicKeyBase64")) as [->|Hn2].
  { rewrite !(lookup_insert_ne _ "ttl") by done. by rewrite !lookup_insert_eq. }
  destruct (decide (key = "privateKeyBase64")) as [->|Hn3].
  { do 2 (rewrite (lookup_insert_ne _ "ttl"), (lookup_insert_ne _ "publicKeyBase64") by done).
    by rewrite !lookup_insert_eq. }
  by repeat (rewrite lookup_insert_ne by done).
Qed.

(** X11. An expired record stays expired: once a load has thrown
    Error("keys expired"), every load at the same or a later clock reading
    throws it again for as long as the store is not written; the load
    itself leaves the expired record where it is. *)
Theorem expired_stays_expired w w' w2 :
  fetchKeysFromLocalStorage w = (Throw (Error "keys expired"), w') ->
  localStorage w2 = localStorage w' ->
  clock w <= clock w2 ->
  w' = w
  /\ fetchKeysFromLocalStorage w2 = (Throw (Error "keys expired"), w2).
Proof.
  intros Hf Hstore Hclock.
  destruct (localStorage w !! "privateKeyBase64") as [sk|] eqn:Hsk.
  2:{ revert Hf. unfold fetchKeysFromLocalStorage, bind at 1, localStorage_getItem at 1.
      rewrite Hsk. by intros [=]. }
  destruct (localStorage w !! "publicKeyBase64") as [pk|] eqn:Hpk.
  2:{ revert Hf. unfold fetchKeysFromLocalStorage, bind at 1, localStorage_getItem at 1.
      rewrite Hsk. unfold bind at 1, localStorage_getItem at 1. rewrite Hpk.
      by intros [=]. }
  rewrite (fetch_present w sk pk Hsk Hpk) in Hf.
  destruct (js_lt (Fin (clock w)) _) eqn:Hlt.
  { exfalso. revert Hf. unfold bind.
    destruct (importPrivateKey sk w) as [[k|e] w4] eqn:Hi.
    - unfold ret. by intros [=].
    - apply importPrivateKey_throws in Hi as [n ->]. by intros [=]. }
  injection Hf as <-. split; [done|].
  rewrite <- Hstore in Hsk, Hpk, Hlt.
  rewrite (fetch_present w2 sk pk Hsk Hpk).
  by rewrite (js_lt_later _ _ _ Hclock Hlt).
Qed.

End StoreMore.

(** ** Cipher engine *)

Section CipherMore.
Context `{Platform}.
Implicit Types (w : World) (pem msg : list Z).

(** [createKeys] by what the provider generates: the handles are those an
    import of the same material builds. *)
Lemma createKeys_outcome w :
  createKeys w
  = match generate_rsa 2048 [1; 0; 1] (entropy w) with
    | Some (pub, priv) =>
        (Normal {| privateKey := Some (imported_private priv);
                   publicKey := Some (imported_public pub) |},
         with_entropy (S (entropy w))
           (with_call (CallGenerateKey RSA_2048_SHA256 true [encrypt; decrypt]) w))
    | None =>
        (Throw (DOMException "OperationError"),
         with_entropy (S (entropy w))
           (with_call (CallGenerateKey RSA_2048_SHA256 true [encrypt; decrypt]) w))
    end.
Proof.
  unfold createKeys, subtle_generateKey, bind, called. simpl.
  by destruct (generate_rsa 2048 [1; 0; 1] (entropy w)) as [[pub priv]|].
Qed.

Lemma decryptMessage_private priv ct w :
  decryptMessage (Some (imported_private priv)) ct w
  = match rsaes_oaep_decrypt priv ct with
    | Some m =>
        (Normal (utf8_decode m),
         with_call (CallDecrypt "RSA-OAEP" (Some (imported_private priv)) ct) w)
    | None =>
        (Throw (DOMException "OperationError"),
         with_call (CallDecrypt "RSA-OAEP" (Some (imported_private priv)) ct) w)
    end.
Proof.
  unfold decryptMessage, subtle_decrypt, bind, called. simpl.
  by destruct (rsaes_oaep_decrypt priv ct).
Qed.

(** X12. Encrypt, then decrypt: a message of at most 190 UTF-8 bytes
    encrypted under an imported 2048-bit public key and decrypted with the
    imported handle of the matching private key comes back as the
    decoding of its own UTF-8 bytes, for a provider whose decryption undoes
    its encryption of those bytes. *)
Theorem encrypt_then_decrypt pem msg w w1 (k : CryptoKey) (priv : key_material) :
  importPublicKey pem w = (Normal k, w1) ->
  modulus_bits (material k) = 2048 ->
  Z.of_nat (length (utf8_encode msg)) <= 190 ->
  rsaes_oaep_decrypt priv (rsaes_oaep (material k) (entropy w1) (utf8_encode msg))
  = Some (utf8_encode msg) ->
  fst ((let* ct := encryptMessage pem msg in
        decryptMessage (Some (imported_private priv)) ct) w)
  = Normal (utf8_decode (utf8_encode msg)).
Proof.
  intros Hk Hbits Hlen Hinv.
  destruct (importPublicKey_normal _ _ _ _ Hk) as (der & m & _ & _ & -> & _).
  simpl in Hbits, Hinv. unfold bind at 1.
  rewrite (encryptMessage_imported _ msg _ _ _ Hk), Hbits.
  change ((2048 + 7) / 8 - 66) with 190.
  destruct (Z.ltb_spec 190 (Z.of_nat (length (utf8_encode msg)))); [lia|].
  by rewrite decryptMessage_private, Hinv.
Qed.

(** X13. Handles keep to their side: a handle returned by
    [importPublicKey] is refused by [decryptMessage] with
    InvalidAccessError, before any decryption is attempted, whatever the
    ciphertext. *)
Theorem public_handle_cannot_decrypt pem w w1 (k : CryptoKey) (c : list Z) w2 :
  importPublicKey pem w = (Normal k, w1) ->
  decryptMessage (Some k) c w2
  = (Throw (DOMException "InvalidAccessError"),
     with_call (CallDecrypt "RSA-OAEP" (Some k) c) w2).
Proof.
  intros Hk.
  destruct (importPublicKey_normal _ _ _ _ Hk) as (der & m & _ & _ & -> & _).
  reflexivity.
Qed.

(** A save whose three writes the store accepts. *)
Lemma saveKeys_try_accepted kp w w1 w2 (sk pk : list Z) :
  time_value (clock w) ->
  exportPrivateKeyToBase64 (privateKey kp) w = (Normal sk, w1) ->
  exportPublicKeyToBase64 (publicKey kp) w1 = (Normal pk, w2) ->
  storage_quota (<["privateKeyBase64" := sk]> (localStorage w)) = true ->
  storage_quota (<["publicKeyBase64" := pk]>
                   (<["privateKeyBase64" := sk]> (localStorage w))) = true ->
  storage_quota (<["ttl" := decimal (clock w + 3600000)]>
                   (<["publicKeyBase64" := pk]>
                      (<["privateKeyBase64" := sk]> (localStorage w)))) = true ->
  saveKeysToLocalStorage (Some kp) w
  = (Normal tt,
     with_storage
       (<["ttl" := decimal (clock w + 3600000)]>
          (<["publicKeyBase64" := pk]>
             (<["privateKeyBase64" := sk]> (localStorage w)))) w2).
Proof.
  intros Hclock Hsk Hpk Hq1 Hq2 Hq3.
  destruct (exportPrivateKeyToBase64_frame _ _ _ _ Hsk) as (Hs1 & Hc1 & Ht1).
  destruct (exportPublicKeyToBase64_frame _ _ _ _ Hpk) as (Hs2 & Hc2 & Ht2).
  unfold saveKeysToLocalStorage, try_catch, saveKeys_try, bind at 1.
  unfold destructure_keys at 1, ret at 1, bind at 1. simpl fst. rewrite Hsk.
  unfold bind at 1. simpl snd. rewrite Hpk.
  unfold bind at 1, Date_now at 1. rewrite Ht2, Ht1, (expiry_exact _ Hclock).
  unfold bind, localStorage_setItem. rewrite Hs2, Hs1, Hq1. simpl.
  rewrite Hq2. simpl. by rewrite Hq3.
Qed.

(** X14. From generation to decryption, with time passing between the
    steps: a pair is generated, saved [d1] ms later, loaded [d2] ms after
    the save, and a message of at most 190 UTF-8 bytes is encrypted with
    the loaded public-key text and decrypted with the loaded private key.
    When the load comes less than an hour after the save, the run returns
    the decoding of the message's UTF-8 bytes; when it comes an hour or
    more after, the run stops at the load with Error("keys expired"). The
    provider is taken to export the generated keys as bytes, within the
    engine's argument limit, that it parses back, to generate a 2048-bit
    modulus and to undo its encryption of the message; the store is taken
    to accept the three writes of this save. *)
Theorem generate_save_load_encrypt_decrypt msg w (pub priv : key_material)
    (d1 d2 d3 d4 : Z) :
  generate_rsa 2048 [1; 0; 1] (entropy w) = Some (pub, priv) ->
  is_bytes (encode_spki pub) -> parse_spki (encode_spki pub) = Some pub ->
  is_bytes (encode_pkcs8 priv) -> parse_pkcs8 (encode_pkcs8 priv) = Some priv ->
  Z.of_nat (length (encode_spki pub)) <= max_arguments ->
  Z.of_nat (length (encode_pkcs8 priv)) <= max_arguments ->
  modulus_bits pub = 2048 ->
  rsaes_oaep_decrypt priv (rsaes_oaep pub (S (entropy w)) (utf8_encode msg))
  = Some (utf8_encode msg) ->
  storage_quota (<["privateKeyBase64" := b64_encode (encode_pkcs8 priv)]>
                   (localStorage w)) = true ->
  storage_quota (<["publicKeyBase64" := b64_encode (encode_spki pub)]>
                   (<["privateKeyBase64" := b64_encode (encode_pkcs8 priv)]>
                      (localStorage w))) = true ->
  storage_quota (<["ttl" := decimal (clock w + d1 + 3600000)]>
                   (<["publicKeyBase64" := b64_encode (encode_spki pub)]>
                      (<["privateKeyBase64" := b64_encode (encode_pkcs8 priv)]>
                         (localStorage w)))) = true ->
  time_value (clock w + d1) ->
  Z.of_nat (length (utf8_encode msg)) <= 190 ->
  (d2 < 3600000 ->
   fst ((let* keys := createKeys in
         let* _ := elapse d1 in
         let* _ := saveKeysToLocalStorage (Some keys) in
         let* _ := elapse d2 in
         let* fetched := fetchKeysFromLocalStorage in
         let* _ := elapse d3 in
         let* ct := encryptMessage (fetched_publicKey fetched) msg in
         let* _ := elapse d4 in
         decryptMessage (Some (fetched_privateKey fetched)) ct) w)
   = Normal (utf8_decode (utf8_encode msg)))
  /\ (3600000 <= d2 ->
      fst ((let* keys := createKeys in
            let* _ := elapse d1 in
            let* _ := saveKeysToLocalStorage (Some keys) in
            let* _ := elapse d2 in
            let* fetched := fetchKeysFromLocalStorage in
            let* _ := elapse d3 in
            let* ct := encryptMessage (fetched_publicKey fetched) msg in
            let* _ := elapse d4 in
            decryptMessage (Some (fetched_privateKey fetched)) ct) w)
      = Throw (Error "keys expired")).
Proof.
  intros Hgen Hpb Hpp Hsb Hsp Hpl Hsl Hbits Hinv Hq1 Hq2 Hq3 Hclock Hlen.
  assert (Hload : forall k : FetchedKeys -> M (list Z),
    (let* keys := createKeys in
     let* _ := elapse d1 in
     let* _ := saveKeysToLocalStorage (Some keys) in
     let* _ := elapse d2 in
     let* fetched := fetchKeysFromLocalStorage in
     k fetched) w
    = let w2 :=
        with_clock (clock w + d1 + d2)
          (with_storage
             (<["ttl" := decimal (clock w + d1 + 3600000)]>
                (<["publicKeyBase64" := b64_encode (encode_spki pub)]>
                   (<["privateKeyBase64" := b64_encode (encode_pkcs8 priv)]>
                      (localStorage w))))
             (with_call (CallExportKey spki (Some (imported_public pub)))
                (with_call (CallExportKey pkcs8 (Some (imported_private priv)))
                   (with_clock (clock w + d1)
                      (with_entropy (S (entropy w))
                         (with_call
                            (CallGenerateKey RSA_2048_SHA256 true [encrypt; decrypt])
                            w)))))) in
      if d2 <? 3600000
      then k {| fetched_privateKey := imported_private priv;
                fetched_publicKey := b64_encode (encode_spki pub) |}
             (with_call (CallImportKey pkcs8 (encode_pkcs8 priv) RSA_OAEP_SHA256 true
                           [decrypt]) w2)
      else (Throw (Error "keys expired"), w2)).
  { intros k. unfold bind at 1. rewrite createKeys_outcome, Hgen.
    set (w1 := with_entropy _ _).
    unfold bind at 1, elapse at 1.
    set (w1' := with_clock _ w1).
    assert (Hclock1 : time_value (clock w1')) by done.
    unfold bind at 1.
    rewrite (saveKeys_try_accepted
               {| privateKey := Some (imported_private priv);
                  publicKey := Some (imported_public pub) |} w1' _ _ _ _ Hclock1
               (exportPrivateKeyToBase64_extractable (imported_private priv) w1'
                  eq_refl eq_refl Hsb Hsl)
               (exportPublicKeyToBase64_extractable (imported_public pub) _
                  eq_refl eq_refl Hpb Hpl) Hq1 Hq2 Hq3).
    set (w2 := with_storage _ _).
    unfold bind at 1, elapse at 1.
    set (w2' := with_clock _ w2).
    assert (Hsk : localStorage w2' !! "privateKeyBase64"
                  = Some (b64_encode (encode_pkcs8 priv))).
    { unfold w2', w2. simpl. rewrite !lookup_insert_ne by done. apply lookup_insert_eq. }
    assert (Hpk : localStorage w2' !! "publicKeyBase64"
                  = Some (b64_encode (encode_spki pub))).
    { unfold w2', w2. simpl. rewrite lookup_insert_ne by done. apply lookup_insert_eq. }
    assert (Httl : parseInt (ToString_nullable (localStorage w2' !! "ttl"))
                   = Fin (clock w + d1 + 3600000)).
    { unfold w2', w2. simpl. rewrite lookup_insert_eq. simpl. apply parseInt_decimal.
      unfold time_value in Hclock. change (2 ^ 53) with 9007199254740992. lia. }
    unfold bind at 1.
    rewrite (fetch_present w2' _ _ Hsk Hpk), Httl.
    change (clock w2') with (clock w + d1 + d2). simpl js_lt. cbv zeta.
    destruct (Z.ltb_spec (clock w + d1 + d2) (clock w + d1 + 3600000));
      destruct (Z.ltb_spec d2 3600000); try lia; [|done].
    unfold bind at 1. by rewrite (importPrivateKey_encoded _ _ w2' Hsb Hsp). }
  rewrite Hload. cbv zeta. split; intros Hd2.
  - destruct (Z.ltb_spec d2 3600000); [|lia].
    simpl fetched_publicKey. simpl fetched_privateKey.
    set (w3 := with_call _ _).
    unfold bind at 1, elapse at 1. set (w3' := with_clock _ w3).
    unfold bind at 1.
    rewrite (encryptMessage_imported _ msg w3' pub _
               (importPublicKey_encoded _ _ w3' Hpb Hpp)).
    rewrite Hbits. change ((2048 + 7) / 8 - 66) with 190.
    destruct (Z.ltb_spec 190 (Z.of_nat (length (utf8_encode msg)))); [lia|].
    unfold bind at 1, elapse at 1.
    rewrite decryptMessage_private.
    change (entropy (with_call _ w3')) with (S (entropy w)). by rewrite Hinv.
  - by destruct (Z.ltb_spec d2 3600000); [lia|].
Qed.

End CipherMore.

(** ** The further properties on the demonstration platforms *)

Lemma key_text_round_trip_witness :
  (let* pem := @exportPublicKeyToBase64 demo_platform
                 (Some (@imported_public demo_platform 2048)) in
   importPublicKey pem) (empty_world demo_platform 0)
  = (Normal (@imported_public demo_platform 2048),
     with_call (CallImportKey spki [48; 1] RSA_OAEP_SHA256 true [encrypt])
       (with_call (CallExportKey spki (Some (@imported_public demo_platform 2048)))
          (empty_world demo_platform 0))).
Proof.
  refine (proj1 (@key_text_round_trip demo_platform (@imported_public demo_platform 2048)
                   (empty_world demo_platform 0)) _ _ _ _ _).
  - reflexivity.
  - reflexivity.
  - repeat constructor; unfold is_byte; simpl; lia.
  - simpl. lia.
  - reflexivity.
Defined.

Lemma encrypt_stops_on_bad_key_text_witness :
  @encryptMessage demo_platform (lit "!") (lit "hi") (empty_world demo_platform 0)
  = (Throw (DOMException "InvalidCharacterError"), empty_world demo_platform 0).
Proof.
  refine (proj1 (@encrypt_stops_on_bad_key_text demo_platform (lit "!") (lit "hi")
                   (empty_world demo_platform 0)) _).
  reflexivity.
Defined.

Lemma message_size_by_length_witness :
  @encryptMessage demo_platform (lit "MAE=") (replicate 63 8364) (empty_world demo_platform 0)
  = (Normal (@rsaes_oaep demo_platform 2048 0%nat (utf8_encode (replicate 63 8364))),
     with_entropy 1
       (with_call (CallEncrypt "RSA-OAEP" (@imported_public demo_platform 2048)
                     (utf8_encode (replicate 63 8364))) demo_imported_world)).
Proof.
  refine (proj1 (@message_size_by_length demo_platform (lit "MAE=") (replicate 63 8364)
                   (empty_world demo_platform 0) demo_imported_world
                   (@imported_public demo_platform 2048) _ _) _).
  - reflexivity.
  - reflexivity.
  - simpl. lia.
Defined.

Lemma saved_record_expires_after_an_hour_witness :
  fst (@fetchKeysFromLocalStorage demo_platform (demo_saved_world 1730003600000))
  = Throw (Error "keys expired").
Proof.
  refine (proj2 (@saved_record_expires_after_an_hour demo_platform (Some demo_keys)
                   (empty_world demo_platform 1730000000000)
                   (snd (@saveKeys_try demo_platform (Some demo_keys)
                           (empty_world demo_platform 1730000000000)))
                   (demo_saved_world 1730003600000) _ _ _) _).
  - unfold time_value. simpl. lia.
  - reflexivity.
  - reflexivity.
  - simpl. lia.
Defined.

Lemma saved_keys_load_back_witness :
  exists pk,
    localStorage (snd (@saveKeys_try demo_platform (Some demo_keys)
                         (empty_world demo_platform 1730000000000)))
      !! "publicKeyBase64" = Some pk
    /\ @fetchKeysFromLocalStorage demo_platform (demo_saved_world 1730003599999)
       = (Normal {| fetched_privateKey := @imported_private demo_platform 2048;
                    fetched_publicKey := pk |},
          with_call (CallImportKey pkcs8 [48; 2] RSA_OAEP_SHA256 true [decrypt])
            (demo_saved_world 1730003599999)).
Proof.
  refine (@saved_keys_load_back demo_platform demo_keys (@imported_private demo_platform 2048)
            (empty_world demo_platform 1730000000000)
            (snd (@saveKeys_try demo_platform (Some demo_keys)
                    (empty_world demo_platform 1730000000000)))
            (demo_saved_world 1730003599999) _ _ _ _ _ _ _).
  - unfold time_value. simpl. lia.
  - reflexivity.
  - reflexivity.
  - repeat constructor; unfold is_byte; simpl; lia.
  - reflexivity.
  - reflexivity.
  - simpl. lia.
Defined.

Lemma save_is_not_atomic_witness :
  exists w',
    @saveKeysToLocalStorage small_store_platform (Some small_store_keys)
      (empty_world small_store_platform 1730000000000) = (Normal tt, w')
    /\ localStorage w' = <["privateKeyBase64" := lit "MAI="]> ∅
    /\ console w' = [DOMException "QuotaExceededError"].
Proof.
  refine (proj1 (@save_is_not_atomic small_store_platform small_store_keys
                   (empty_world small_store_platform 1730000000000)
                   (snd (@exportPrivateKeyToBase64 small_store_platform
                           (privateKey small_store_keys)
                           (empty_world small_store_platform 1730000000000)))
                   (snd (@exportPublicKeyToBase64 small_store_platform
                           (publicKey small_store_keys)
                           (snd (@exportPrivateKeyToBase64 small_store_platform
                                   (privateKey small_store_keys)
                                   (empty_world small_store_platform 1730000000000)))))
                   (lit "MAI=") (lit "MAE=") _ _ _) _).
  - reflexivity.
  - reflexivity.
  - reflexivity.
  - reflexivity.
Defined.

Lemma save_replaces_previous_witness :
  exists kp2 sk2 pk2 w1 w2,
    Some demo_keys = Some kp2
    /\ @exportPrivateKeyToBase64 demo_platform (privateKey kp2)
         (demo_saved_world 1730000500000) = (Normal sk2, w1)
    /\ exportPublicKeyToBase64 (publicKey kp2) w1 = (Normal pk2, w2)
    /\ localStorage (snd (@saveKeys_try demo_platform (Some demo_keys)
                            (demo_saved_world 1730000500000)))
       = <["ttl" := decimal (1730000500000 + 3600000)]>
           (<["publicKeyBase64" := pk2]> (<["privateKeyBase64" := sk2]> ∅)).
Proof.
  refine (@save_replaces_previous demo_platform (Some demo_keys) (Some demo_keys)
            (empty_world demo_platform 1730000000000)
            (snd (@saveKeys_try demo_platform (Some demo_keys)
                    (empty_world demo_platform 1730000000000)))
            (demo_saved_world 1730000500000)
            (snd (@saveKeys_try demo_platform (Some demo_keys)
                    (demo_saved_world 1730000500000))) _ _ _ _ _).
  - unfold time_value. simpl. lia.
  - unfold time_value. simpl. lia.
  - reflexivity.
  - reflexivity.
  - reflexivity.
Defined.

Lemma expired_stays_expired_witness :
  expiry_demo_world (lit "MAI=") 2000 = expiry_demo_world (lit "MAI=") 2000
  /\ @fetchKeysFromLocalStorage demo_platform (expiry_demo_world (lit "MAI=") 3000)
     = (Throw (Error "keys expired"), expiry_demo_world (lit "MAI=") 3000).
Proof.
  refine (@expired_stays_expired demo_platform (expiry_demo_world (lit "MAI=") 2000)
            (expiry_demo_world (lit "MAI=") 2000) (expiry_demo_world (lit "MAI=") 3000)
            _ _ _).
  - reflexivity.
  - reflexivity.
  - simpl. lia.
Defined.

Lemma encrypt_then_decrypt_witness :
  fst ((let* ct := @encryptMessage loopback_platform (lit "MAE=") (lit "hello world") in
        decryptMessage (Some (@imported_private loopback_platform 2048)) ct)
         (empty_world loopback_platform 0))
  = Normal (@utf8_decode loopback_platform (utf8_encode (lit "hello world"))).
Proof.
  refine (@encrypt_then_decrypt loopback_platform (lit "MAE=") (lit "hello world")
            (empty_world loopback_platform 0)
            (snd (@importPublicKey loopback_platform (lit "MAE=")
                    (empty_world loopback_platform 0)))
            (@imported_public loopback_platform 2048) 2048 _ _ _ _).
  - reflexivity.
  - reflexivity.
  - simpl. lia.
  - reflexivity.
Defined.

Lemma public_handle_cannot_decrypt_witness :
  @decryptMessage demo_platform (Some (@imported_public demo_platform 2048)) [1; 2; 3]
    (empty_world demo_platform 0)
  = (Throw (DOMException "InvalidAccessError"),
     with_call (CallDecrypt "RSA-OAEP" (Some (@imported_public demo_platform 2048)) [1; 2; 3])
       (empty_world demo_platform 0)).
Proof.
  refine (@public_handle_cannot_decrypt demo_platform (lit "MAE=")
            (empty_world demo_platform 0) demo_imported_world
            (@imported_public demo_platform 2048) [1; 2; 3]
            (empty_world demo_platform 0) _).
  reflexivity.
Defined.

Lemma generate_save_load_encrypt_decrypt_witness :
  fst ((let* keys := @createKeys three_entry_platform in
        let* _ := elapse 250 in
        let* _ := saveKeysToLocalStorage (Some keys) in
        let* _ := elapse 3599999 in
        let* fetched := fetchKeysFromLocalStorage in
        let* _ := elapse 40 in
        let* ct := encryptMessage (fetched_publicKey fetched) (lit "hello world") in
        let* _ := elapse 5000 in
        decryptMessage (Some (fetched_privateKey fetched)) ct)
         (empty_world three_entry_platform 1730000000000))
  = Normal (@utf8_decode three_entry_platform (utf8_encode (lit "hello world"))).
Proof.
  refine (proj1 (@generate_save_load_encrypt_decrypt three_entry_platform (lit "hello world")
                   (empty_world three_entry_platform 1730000000000) 2048 2048
                   250 3599999 40 5000
                   _ _ _ _ _ _ _ _ _ _ _ _ _ _) _).
  - reflexivity.
  - repeat constructor; unfold is_byte; simpl; lia.
  - reflexivity.
  - repeat constructor; unfold is_byte; simpl; lia.
  - reflexivity.
  - simpl. lia.
  - simpl. lia.
  - reflexivity.
  - reflexivity.
  - reflexivity.
  - reflexivity.
  - reflexivity.
  - unfold time_value. simpl. lia.
  - simpl. lia.
  - lia.
Defined.

(** ** Barcode decoders *)

(** After a copy that fits, the memory holds the source at the offset. *)
Lemma heap_write_image heap source offset :
  (offset + length source <= length heap)%nat ->
  take (length source) (drop offset (heap_write heap source offset)) = map ToUint8 source
  /\ length (heap_write heap source offset) = length heap.
Proof.
  intros Hfit. unfold heap_write. split.
  - rewrite drop_app_length' by (rewrite length_take; lia).
    apply take_app_length'. by rewrite length_map.
  - rewrite !length_app, length_take, length_map, length_drop. lia.
Qed.

Lemma HEAPU8_set_returns {native call} source offset (m m' : WasmModule native call) :
  HEAPU8_set source offset m = (Returns tt, m') ->
  (Z.to_nat offset + length source <= length (HEAPU8 m))%nat
  /\ m' = {| HEAPU8 := heap_write (HEAPU8 m) source (Z.to_nat offset);
             native_state := native_state m; calls := calls m |}.
Proof.
  unfold HEAPU8_set.
  destruct (Z.ltb_spec offset 0); simpl; [by intros [=]|].
  destruct (Z.ltb_spec (Z.of_nat (length (HEAPU8 m))) (offset + Z.of_nat (length source)));
    [by intros [=]|].
  intros [= <-]. split; [lia|done].
Qed.

Section Zxing.
Context `{ZxingDecoder}.
Implicit Types (m : ZxingModule) (imgData : list Z).

(** X15. A [KoderZxing.decode] that returns has made three calls and no
    other, each on what the one before left: [_malloc] with the length of
    the image; [readBarcodeFromPixmap] at the address [_malloc] returned,
    on the memory [_malloc] left with the image copied at that address
    (where it fits), with the [mode] and [format] asked for ([true] and the
    empty string when left out); [_free] of that same address. The module
    is left as [_free] left it. The value returned is the decoder's text
    and format when the decoder read a text that is not empty, and null
    otherwise, so a barcode returned never has an empty code. *)
Theorem zxing_decode_returns m imgData (width height : Z) (mode : option bool)
    (fmt : option (list Z)) (r : option Barcode) (this' : option ZxingModule) :
  KoderZxing_decode (Some m) imgData width height mode fmt = (Returns r, this') ->
  exists buffer heap1 st1 res heap3 st3 heap4 st4,
    zxing_malloc (Z.of_nat (length imgData)) (HEAPU8 m) (native_state m)
    = (Returns buffer, heap1, st1)
    /\ 0 <= buffer
    /\ buffer + Z.of_nat (length imgData) <= Z.of_nat (length heap1)
    /\ take (length imgData)
         (drop (Z.to_nat buffer) (heap_write heap1 imgData (Z.to_nat buffer)))
       = map ToUint8 imgData
    /\ zxing_readBarcodeFromPixmap buffer width height (default true mode) (default [] fmt)
         (heap_write heap1 imgData (Z.to_nat buffer)) st1
       = (Returns res, heap3, st3)
    /\ zxing_free buffer heap3 st3 = (Returns tt, heap4, st4)
    /\ this'
       = Some {| HEAPU8 := heap4; native_state := st4;
                 calls := calls m ++ [ZxMalloc (Z.of_nat (length imgData));
                                      ZxRead (heap_write heap1 imgData (Z.to_nat buffer))
                                        buffer width height (default true mode)
                                        (default [] fmt);
                                      ZxFree buffer] |}
    /\ r = match res with
           | Some x =>
               if 0 <? Z.of_nat (length (text x))
               then Some {| code := text x; barcode_type := format x |}
               else None
           | None => None
           end
    /\ (forall b, r = Some b -> code b <> []).
Proof.
  unfold KoderZxing_decode, KoderZxing_decode_body.
  unfold obind at 1, zxing_mod_malloc at 1, native_call at 1.
  destruct (zxing_malloc _ _ _) as [[[buffer|e] heap1] st1] eqn:Hmalloc; [|by intros [=]].
  unfold obind at 1, HEAPU8_set at 1. simpl.
  destruct (Z.ltb_spec buffer 0) as [|Hpos]; simpl; [by intros [=]|].
  destruct (Z.ltb_spec (Z.of_nat (length heap1)) (buffer + Z.of_nat (length imgData)))
    as [|Hfit]; [by intros [=]|].
  unfold obind at 1, zxing_mod_readBarcodeFromPixmap at 1, native_call at 1. simpl.
  destruct (zxing_readBarcodeFromPixmap _ _ _ _ _ _ _) as [[[res|e] heap3] st3] eqn:Hread;
    [|by intros [=]].
  unfold obind at 1, zxing_mod_free at 1, native_call at 1. simpl.
  destruct (zxing_free _ _ _) as [[[[]|e] heap4] st4] eqn:Hfree; [|by intros [=]].
  unfold oret. intros [= <- <-].
  exists buffer, heap1, st1, res, heap3, st3, heap4, st4.
  split; [done|]. split; [done|]. split; [done|].
  split; [apply heap_write_image; lia|]. split; [done|]. split; [done|].
  split; [by rewrite <- !app_assoc|].
  assert (Hr : first_or_null
                 match res with
                 | Some r0 =>
                     if 0 <? Z.of_nat (length (text r0))
                     then [{| code := text r0; barcode_type := format r0 |}]
                     else []
                 | None => []
                 end
               = match res with
                 | Some x =>
                     if 0 <? Z.of_nat (length (text x))
                     then Some {| code := text x; barcode_type := format x |}
                     else None
                 | None => None
                 end).
  { destruct res as [x|]; [|done]. by destruct (0 <? _). }
  split; [exact Hr|]. rewrite Hr.
  intros b. destruct res as [x|]; [|by intros [=]].
  destruct (Z.ltb_spec 0 (Z.of_nat (length (text x)))) as [Hlen|Hlen]; [|by intros [=]].
  intros [= <-]. simpl. intros Hnil. rewrite Hnil in Hlen. simpl in Hlen. lia.
Qed.

(** X16. [KoderZxing.decode] frees the image buffer only after the
    decoder has returned: when [readBarcodeFromPixmap] throws, [decode]
    throws the same and the buffer it allocated is not freed. *)
Theorem zxing_decode_leaks_on_exception m imgData (width height : Z)
    (mode : option bool) (fmt : option (list Z))
    (buffer : Z) heap1 st1 (e : wasm_exn) heap3 st3 :
  zxing_malloc (Z.of_nat (length imgData)) (HEAPU8 m) (native_state m)
  = (Returns buffer, heap1, st1) ->
  0 <= buffer -> buffer + Z.of_nat (length imgData) <= Z.of_nat (length heap1) ->
  zxing_readBarcodeFromPixmap buffer width height (default true mode) (default [] fmt)
    (heap_write heap1 imgData (Z.to_nat buffer)) st1
  = (Raises e, heap3, st3) ->
  KoderZxing_decode (Some m) imgData width height mode fmt
  = (Raises e,
     Some {| HEAPU8 := heap3; native_state := st3;
             calls := calls m ++ [ZxMalloc (Z.of_nat (length imgData));
                                  ZxRead (heap_write heap1 imgData (Z.to_nat buffer))
                                    buffer width height (default true mode)
                                    (default [] fmt)] |}).
Proof.
  intros Hmalloc Hpos Hfit Hread.
  unfold KoderZxing_decode, KoderZxing_decode_body.
  unfold obind at 1, zxing_mod_malloc at 1, native_call at 1. rewrite Hmalloc.
  unfold obind at 1, HEAPU8_set at 1. simpl.
  destruct (Z.ltb_spec buffer 0); [lia|].
  destruct (Z.ltb_spec (Z.of_nat (length heap1)) (buffer + Z.of_nat (length imgData)));
    [lia|]. simpl.
  unfold obind at 1, zxing_mod_readBarcodeFromPixmap at 1, native_call at 1. simpl.
  rewrite Hread. by rewrite <- app_assoc.
Qed.

End Zxing.

Section Zbar.
Context `{ZbarDecoder}.
Implicit Types (m : ZbarModule) (imgData : list Z).

(** X17. A [KoderZbar.decode] that returns has reserved
    width * height * 4 bytes and has run the decoder at the reserved
    address, on the memory the reservation left with the whole image,
    whatever its length, copied at that address (where it fits). When the
    count the decoder returned is not above 0, it returns null having made
    no further call. When the count is above 0, it asks for the result
    address, then for the type address, returns the text in memory at the
    result address as it is after the first call and the text at the type
    address as it is after the second, the code unchecked, and releases
    the result address and no other. *)
Theorem zbar_decode_returns m imgData (width height : Z) (r : option Barcode)
    (this' : option ZbarModule) :
  KoderZbar_decode (Some m) imgData width height = (Returns r, this') ->
  exists buffer heap1 st1 found heap3 st3,
    zbar_createBuffer (width * height * 4) (HEAPU8 m) (native_state m)
    = (Returns buffer, heap1, st1)
    /\ 0 <= buffer
    /\ buffer + Z.of_nat (length imgData) <= Z.of_nat (length heap1)
    /\ take (length imgData)
         (drop (Z.to_nat buffer) (heap_write heap1 imgData (Z.to_nat buffer)))
       = map ToUint8 imgData
    /\ zbar_triggerDecode buffer width height
         (heap_write heap1 imgData (Z.to_nat buffer)) st1
       = (Returns found, heap3, st3)
    /\ ((found <= 0
         /\ r = None
         /\ this'
            = Some {| HEAPU8 := heap3; native_state := st3;
                      calls := calls m
                                 ++ [ZbCreateBuffer (width * height * 4);
                                     ZbTriggerDecode
                                       (heap_write heap1 imgData (Z.to_nat buffer))
                                       buffer width height] |})
        \/ (0 < found
            /\ exists resultAddress heap4 st4 typeAddress heap5 st5 heap6 st6,
                 zbar_getScanResults heap3 st3 = (Returns resultAddress, heap4, st4)
                 /\ zbar_getResultType heap4 st4 = (Returns typeAddress, heap5, st5)
                 /\ zbar_deleteBuffer resultAddress heap5 st5 = (Returns tt, heap6, st6)
                 /\ r = Some {| code := UTF8ToString heap4 resultAddress;
                                barcode_type := UTF8ToString heap5 typeAddress |}
                 /\ this'
                    = Some {| HEAPU8 := heap6; native_state := st6;
                              calls := calls m
                                         ++ [ZbCreateBuffer (width * height * 4);
                                             ZbTriggerDecode
                                               (heap_write heap1 imgData (Z.to_nat buffer))
                                               buffer width height;
                                             ZbGetScanResults; ZbGetResultType;
                                             ZbDeleteBuffer resultAddress] |})).
Proof.
  unfold KoderZbar_decode, KoderZbar_decode_body.
  unfold obind at 1, api_createBuffer at 1, native_call at 1.
  destruct (zbar_createBuffer _ _ _) as [[[buffer|e] heap1] st1] eqn:Hcreate;
    [|by intros [=]].
  unfold obind at 1, HEAPU8_set at 1. simpl.
  destruct (Z.ltb_spec buffer 0) as [|Hpos]; simpl; [by intros [=]|].
  destruct (Z.ltb_spec (Z.of_nat (length heap1)) (buffer + Z.of_nat (length imgData)))
    as [|Hfit]; [by intros [=]|].
  unfold obind at 1, api_triggerDecode at 1, native_call at 1. simpl.
  destruct (zbar_triggerDecode _ _ _ _ _) as [[[found|e] heap3] st3] eqn:Htrigger;
    [|by intros [=]].
  unfold obind at 1.
  destruct (Z.ltb_spec 0 found) as [Hfound|Hfound].
  - unfold obind at 1, api_getScanResults at 1, native_call at 1. simpl.
    destruct (zbar_getScanResults _ _) as [[[resultAddress|e] heap4] st4] eqn:Hscan;
      [|by intros [=]].
    unfold obind at 1, mod_UTF8ToString at 1. simpl.
    unfold obind at 1, api_getResultType at 1, native_call at 1. simpl.
    destruct (zbar_getResultType _ _) as [[[typeAddress|e] heap5] st5] eqn:Htype;
      [|by intros [=]].
    unfold obind at 1, mod_UTF8ToString at 1. simpl.
    unfold obind at 1, api_deleteBuffer at 1, native_call at 1. simpl.
    destruct (zbar_deleteBuffer _ _ _) as [[[[]|e] heap6] st6] eqn:Hdelete;
      [|by intros [=]].
    unfold oret. intros [= <- <-].
    exists buffer, heap1, st1, found, heap3, st3.
    split; [done|]. split; [done|]. split; [done|].
    split; [apply heap_write_image; lia|]. split; [done|].
    right. split; [done|].
    exists resultAddress, heap4, st4, typeAddress, heap5, st5, heap6, st6.
    split; [done|]. split; [done|]. split; [done|]. split; [done|].
    by rewrite <- !app_assoc.
  - unfold oret. intros [= <- <-].
    exists buffer, heap1, st1, found, heap3, st3.
    split; [done|]. split; [done|]. split; [done|].
    split; [apply heap_write_image; lia|]. split; [done|].
    left. split; [done|]. split; [done|]. by rewrite <- !app_assoc.
Qed.

End Zbar.

Lemma zxing_decode_returns_witness :
  exists buffer heap1 st1 res heap3 st3 heap4 st4,
    @zxing_malloc demo_zxing 2 (HEAPU8 demo_zxing_module) (native_state demo_zxing_module)
    = (Returns buffer, heap1, st1)
    /\ 0 <= buffer
    /\ buffer + 2 <= Z.of_nat (length heap1)
    /\ take 2 (drop (Z.to_nat buffer) (heap_write heap1 [81; 82] (Z.to_nat buffer)))
       = map ToUint8 [81; 82]
    /\ @zxing_readBarcodeFromPixmap demo_zxing buffer 1 1 true []
         (heap_write heap1 [81; 82] (Z.to_nat buffer)) st1
       = (Returns res, heap3, st3)
    /\ @zxing_free demo_zxing buffer heap3 st3 = (Returns tt, heap4, st4)
    /\ snd (@KoderZxing_decode demo_zxing (Some demo_zxing_module) [81; 82] 1 1 None None)
       = Some {| HEAPU8 := heap4; native_state := st4;
                 calls := calls demo_zxing_module
                            ++ [ZxMalloc 2;
                                ZxRead (heap_write heap1 [81; 82] (Z.to_nat buffer))
                                  buffer 1 1 true [];
                                ZxFree buffer] |}
    /\ Some {| code := [81]; barcode_type := [] |}
       = match res with
         | Some x =>
             if 0 <? Z.of_nat (length (text x))
             then Some {| code := text x; barcode_type := format x |}
             else None
         | None => None
         end
    /\ (forall b, Some {| code := [81]; barcode_type := [] |} = Some b -> code b <> []).
Proof.
  refine (@zxing_decode_returns demo_zxing demo_zxing_module [81; 82] 1 1 None None
            (Some {| code := [81]; barcode_type := [] |})
            (snd (@KoderZxing_decode demo_zxing (Some demo_zxing_module) [81; 82] 1 1
                    None None)) _).
  reflexivity.
Defined.

Lemma zxing_decode_leaks_on_exception_witness :
  @KoderZxing_decode demo_zxing (Some demo_zxing_module) [81; 82] 0 1 None None
  = (Raises (NativeException 1),
     Some {| HEAPU8 := heap_write (replicate 16 0) [81; 82] 4; native_state := 6;
             calls := [ZxMalloc 2;
                       ZxRead (heap_write (replicate 16 0) [81; 82] 4) 4 0 1 true []] |}).
Proof.
  refine (@zxing_decode_leaks_on_exception demo_zxing demo_zxing_module [81; 82] 0 1
            None None 4 (replicate 16 0) 6 (NativeException 1)
            (heap_write (replicate 16 0) [81; 82] 4) 6 _ _ _ _).
  - reflexivity.
  - lia.
  - simpl. lia.
  - reflexivity.
Defined.

Lemma zbar_decode_returns_witness :
  exists buffer heap1 st1 found heap3 st3,
    @zbar_createBuffer demo_zbar (1 * 1 * 4) (HEAPU8 demo_zbar_module)
      (native_state demo_zbar_module)
    = (Returns buffer, heap1, st1)
    /\ 0 <= buffer
    /\ buffer + 5 <= Z.of_nat (length heap1)
    /\ take 5 (drop (Z.to_nat buffer) (heap_write heap1 [7; 9; 9; 9; 9] (Z.to_nat buffer)))
       = map ToUint8 [7; 9; 9; 9; 9]
    /\ @zbar_triggerDecode demo_zbar buffer 1 1
         (heap_write heap1 [7; 9; 9; 9; 9] (Z.to_nat buffer)) st1
       = (Returns found, heap3, st3)
    /\ ((found <= 0
         /\ Some {| code := []; barcode_type := [] |} = None
         /\ snd (@KoderZbar_decode demo_zbar (Some demo_zbar_module) [7; 9; 9; 9; 9] 1 1)
            = Some {| HEAPU8 := heap3; native_state := st3;
                      calls := calls demo_zbar_module
                                 ++ [ZbCreateBuffer (1 * 1 * 4);
                                     ZbTriggerDecode
                                       (heap_write heap1 [7; 9; 9; 9; 9] (Z.to_nat buffer))
                                       buffer 1 1] |})
        \/ (0 < found
            /\ exists resultAddress heap4 st4 typeAddress heap5 st5 heap6 st6,
                 @zbar_getScanResults demo_zbar heap3 st3 = (Returns resultAddress, heap4, st4)
                 /\ @zbar_getResultType demo_zbar heap4 st4 = (Returns typeAddress, heap5, st5)
                 /\ @zbar_deleteBuffer demo_zbar resultAddress heap5 st5
                    = (Returns tt, heap6, st6)
                 /\ Some {| code := []; barcode_type := [] |}
                    = Some {| code := @UTF8ToString demo_zbar heap4 resultAddress;
                              barcode_type := @UTF8ToString demo_zbar heap5 typeAddress |}
                 /\ snd (@KoderZbar_decode demo_zbar (Some demo_zbar_module)
                           [7; 9; 9; 9; 9] 1 1)
                    = Some {| HEAPU8 := heap6; native_state := st6;
                              calls := calls demo_zbar_module
                                         ++ [ZbCreateBuffer (1 * 1 * 4);
                                             ZbTriggerDecode
                                               (heap_write heap1 [7; 9; 9; 9; 9]
                                                  (Z.to_nat buffer))
                                               buffer 1 1;
                                             ZbGetScanResults; ZbGetResultType;
                                             ZbDeleteBuffer resultAddress] |})).
Proof.
  refine (@zbar_decode_returns demo_zbar demo_zbar_module [7; 9; 9; 9; 9] 1 1
            (Some {| code := []; barcode_type := [] |})
            (snd (@KoderZbar_decode demo_zbar (Some demo_zbar_module) [7; 9; 9; 9; 9] 1 1))
            _).
  reflexivity.
Defined.
